(** * Randomized smoothing (art.estimators.certification.randomized_smoothing)
      and the AutoAttack placeholder (art.attacks.evasion.auto_attack)

    A shallow embedding of [RandomizedSmoothingMixin] and [AutoAttack].

    Conventions of the embedding.
    - Python floats and NumPy float64 entries are idealised as exact
      rationals ([Q]); rounding is not modelled.
    - NumPy arrays live in a store ([heap]) and are referred to by location,
      so that views ([x_i], [np.expand_dims]) alias the caller's array while
      [np.repeat], [np.random.normal] and [+] allocate. An array is kept as
      its rows, each input flattened to one row; vectors that never leave a
      call (vote counts, predictions) are plain lists.
    - A call either returns a value or raises; effects on the store, on the
      random source and on standard output are threaded explicitly.
    - The wrapped classifier, the random source and the two numeric routines
      with irrational values ([proportion_confint], [norm.ppf]) are
      interfaces; [scipy.stats.binom_test] at exact arithmetic is defined. *)

From Stdlib Require Import ZArith QArith Qround Lqa Lia String.
From stdpp Require Import base option list sorting.

Local Open Scope Q_scope.

(** ** Python outcomes *)

Inductive exn : Type :=
  | IndexError
  | ValueError
  | NotImplementedError
  | ReferenceError
  | ExternalError (code : nat).

Inductive result (A : Type) : Type :=
  | Ok (a : A)
  | Raise (e : exn).
Arguments Ok {A} a.
Arguments Raise {A} e.

(** ** Arrays and the store *)

(** A two-dimensional float array: [shape] is (rows, columns). *)
Record ndarray : Type := mk_ndarray {
  shape : nat * nat;
  data : list (list Q)
}.

Abbreviation loc := nat (only parsing).
Abbreviation heap := (list ndarray) (only parsing).

(** A row view [x[i]] of the array stored at a location. *)
Definition view : Type := loc * nat.

Definition wf_ndarray (a : ndarray) : Prop :=
  length (data a) = fst (shape a) /\
  Forall (fun r => length r = snd (shape a)) (data a).

(** Messages written to standard output. *)
Inductive message : Type :=
  | Abstained (n_abstained : nat).

Definition Qltb (a b : Q) : bool := negb (Qle_bool b a).

(** ** The world a call runs in, and the monad of calls *)

Record world (G : Type) : Type := mk_world {
  w_heap : heap;
  w_rng : G;
  w_stdout : list message
}.
Arguments mk_world {G} _ _ _.
Arguments w_heap {G} _.
Arguments w_rng {G} _.
Arguments w_stdout {G} _.

(** A call maps the world before it to an outcome and the world after it;
    a call that raises keeps the effects it had before raising. *)
Definition M (G A : Type) : Type := world G -> result A * world G.

Definition ret {G A} (a : A) : M G A := fun w => (Ok a, w).

Definition raise {G A} (e : exn) : M G A := fun w => (Raise e, w).

Definition bind {G A B} (m : M G A) (k : A -> M G B) : M G B :=
  fun w =>
    match m w with
    | (Ok a, w1) => k a w1
    | (Raise e, w1) => (Raise e, w1)
    end.

Definition lift {G A} (r : result A) : M G A := fun w => (r, w).

Declare Scope py_scope.
Delimit Scope py_scope with py.
Notation "x <- m ;; k" := (bind m (fun x => k))
  (at level 100, m at next level, right associativity) : py_scope.
Notation "m ;;; k" := (bind m (fun _ => k))
  (at level 100, right associativity) : py_scope.
Local Open Scope py_scope.

(** ** External collaborators *)

(** The random source behind [np.random]: one standard-normal draw. *)
Class RandomSource (G : Type) : Type := {
  standard_normal : G -> Q * G
}.

(** The wrapped classifier: [_predict_model(x, batch_size)] of the class the
    mixin is combined with. It is handed the location of the batch; it may
    read and write the store and may raise. *)
Class Classifier : Type := {
  _predict_model : heap -> loc -> Z -> result ndarray * heap
}.

(** [RandomizedSmoothingMixin._predict_model] itself, which the classes that
    mix the smoothing in override: it raises [NotImplementedError]. *)
Definition mixin_predict_model : Classifier :=
  {| _predict_model h x batch_size := (Raise NotImplementedError, h) |}.

(** [statsmodels.stats.proportion.proportion_confint(count, nobs, alpha,
    method)] and [scipy.stats.norm.ppf]. *)
Class Statistics : Type := {
  proportion_confint : Q -> Q -> Q -> string -> Q * Q;
  norm_ppf : Q -> Q
}.

(** ** NumPy operations *)

Section Numpy.
Context {G : Type} {RS : RandomSource G}.

Definition alloc (a : ndarray) : M G loc :=
  fun w => (Ok (length (w_heap w)),
            mk_world (w_heap w ++ [a]) (w_rng w) (w_stdout w)).

Definition read (l : loc) : M G ndarray :=
  fun w =>
    match w_heap w !! l with
    | Some a => (Ok a, w)
    | None => (Raise ReferenceError, w)
    end.

(** [len(x)] *)
Definition len (x : loc) : M G nat :=
  a <- read x ;; ret (fst (shape a)).

(** The contents seen through the view [x[i]]. *)
Definition read_view (v : view) : M G (list Q) :=
  a <- read (fst v) ;;
  match data a !! snd v with
  | Some r => ret r
  | None => raise IndexError
  end.

(** [np.expand_dims(x, axis=0)]: a view on the same buffer, no copy. *)
Definition np_expand_dims (v : view) : M G view := ret v.

(** [np.repeat(x, n, axis=0)] on a one-row view: a new array of [n] copies
    of the row; a negative count is refused. *)
Definition np_repeat (v : view) (n : Z) : M G loc :=
  r <- read_view v ;;
  if (n <? 0)%Z then raise ValueError
  else alloc (mk_ndarray (Z.to_nat n, length r) (replicate (Z.to_nat n) r)).

Definition np_shape (l : loc) : M G (nat * nat) :=
  a <- read l ;; ret (shape a).

Fixpoint draw_row (scale : Q) (d : nat) (g : G) : list Q * G :=
  match d with
  | O => ([], g)
  | S d' =>
      let (z, g1) := standard_normal g in
      let (zs, g2) := draw_row scale d' g1 in
      ((0 + scale * z) :: zs, g2)
  end.

Fixpoint draw_rows (scale : Q) (n d : nat) (g : G) : list (list Q) * G :=
  match n with
  | O => ([], g)
  | S n' =>
      let (r, g1) := draw_row scale d g in
      let (rs, g2) := draw_rows scale n' d g1 in
      (r :: rs, g2)
  end.

(** [np.random.normal(scale=scale, size=size)]: a new array of draws
    [loc + scale * z] with [loc = 0]; a negative [scale] is refused. *)
Definition np_random_normal (scale : Q) (size : nat * nat) : M G loc :=
  if Qltb scale 0 then raise ValueError
  else
    fun w =>
      let (rows, g') := draw_rows scale (fst size) (snd size) (w_rng w) in
      alloc (mk_ndarray size rows) (mk_world (w_heap w) g' (w_stdout w)).

(** [a + b] for arrays of one shape: a new array. *)
Definition np_add (a b : loc) : M G loc :=
  xa <- read a ;;
  xb <- read b ;;
  alloc (mk_ndarray (shape xa) (zip_with (zip_with Qplus) (data xa) (data xb))).

(** [print(...)] *)
Definition print (m : message) : M G unit :=
  fun w => (Ok tt, mk_world (w_heap w) (w_rng w) (w_stdout w ++ [m])).
End Numpy.

(** Index of the first maximum of a non-empty list, scanning left to right
    with the running maximum [best] found at index [bi]. *)
Fixpoint argmax_from (best : Q) (bi i : nat) (l : list Q) : nat :=
  match l with
  | [] => bi
  | v :: l' =>
      if Qltb best v then argmax_from v i (S i) l'
      else argmax_from best bi (S i) l'
  end.

(** [np.argmax(v)] of a vector: first index of the maximum. *)
Definition np_argmax (v : list Q) : result nat :=
  match v with
  | [] => Raise ValueError
  | a :: l => Ok (argmax_from a 0%nat 1%nat l)
  end.

(** [np.max(v)] of a vector. *)
Definition np_max (v : list Q) : result Q :=
  match v with
  | [] => Raise ValueError
  | a :: l => Ok (fold_left (fun m b => if Qltb m b then b else m) l a)
  end.

Fixpoint map_result {A B} (f : A -> result B) (l : list A) : result (list B) :=
  match l with
  | [] => Ok []
  | a :: l' =>
      match f a with
      | Raise e => Raise e
      | Ok b =>
          match map_result f l' with
          | Raise e => Raise e
          | Ok bs => Ok (b :: bs)
          end
      end
  end.

(** [np.argmax(m, axis=-1)] of a matrix: one index per row; an axis of
    length zero is refused. *)
Definition np_argmax_rows (m : ndarray) : result (list nat) :=
  if (snd (shape m) =? 0)%nat then Raise ValueError
  else map_result np_argmax (data m).

(** [np.zeros(shape)] *)
Definition np_zeros (n : nat) : list Q := replicate n 0.
Definition np_zeros2 (s : nat * nat) : list (list Q) :=
  replicate (fst s) (np_zeros (snd s)).

(** [pred[np.arange(pred.shape[0]), idx] = 1]; the indices are arg-max
    positions of rows of the same width, hence in range. *)
Definition set_rows (pred : list (list Q)) (idx : list nat) : list (list Q) :=
  zip_with (fun r i => <[i := 1]> r) pred idx.

(** [np.sum(pred, axis=0)] of a matrix with [c] columns. *)
Definition np_sum_axis0 (c : nat) (pred : list (list Q)) : list Q :=
  fold_right (zip_with Qplus) (np_zeros c) pred.

(** [np.sum(v)] of a vector. *)
Definition np_sum (v : list Q) : Q := fold_right Qplus 0 v.

(** Insert an index into a list of indices sorted by value, after the
    entries that are not larger. *)
Fixpoint insert_by (v : list Q) (i : nat) (l : list nat) : list nat :=
  match l with
  | [] => [i]
  | j :: l' =>
      if Qltb (default 0 (v !! i)) (default 0 (v !! j)) then i :: j :: l'
      else j :: insert_by v i l'
  end.

(** [v.argsort()]: the indices of [v] in ascending order of value. NumPy's
    default sort leaves the order of equal entries open; this one keeps
    index order among them. *)
Definition argsort (v : list Q) : list nat :=
  fold_left (fun acc i => insert_by v i acc) (seq 0 (length v)) [].

(** [l[i]] for a list or vector. *)
Definition getitem {A} (l : list A) (i : nat) : result A :=
  match l !! i with
  | Some a => Ok a
  | None => Raise IndexError
  end.

(** ** Exact binomial probabilities *)

(** Row [n] of Pascal's triangle. *)
Fixpoint pascal_row (n : nat) : list Z :=
  match n with
  | O => [1%Z]
  | S n' =>
      let r := pascal_row n' in
      zip_with Z.add (0%Z :: r) (r ++ [0%Z])
  end.

(** Binomial coefficient [n] choose [k]. *)
Definition choose (n k : nat) : Z := default 0%Z (pascal_row n !! k).

Fixpoint Qpow (q : Q) (k : nat) : Q :=
  match k with
  | O => 1
  | S k' => q * Qpow q k'
  end.

Definition Qnat (n : nat) : Q := inject_Z (Z.of_nat n).

(** Probability of [k] successes in [n] trials of success probability [p]. *)
Definition binom_pmf (k n : nat) (p : Q) : Q :=
  inject_Z (choose n k) * Qpow p k * Qpow (1 - p) (n - k).

(** [f a + f (a+1) + ... + f (a+len-1)] *)
Fixpoint sum_from (f : nat -> Q) (a len : nat) : Q :=
  match len with
  | O => 0
  | S len' => f a + sum_from f (S a) len'
  end.

(** Probability of at least [k] successes in [n] trials. *)
Definition binom_sf (k n : nat) (p : Q) : Q :=
  sum_from (fun i => binom_pmf i n p) k (S n - k).

(** [astype(np.int_)]: truncation towards zero. *)
Definition Qtrunc (q : Q) : Z :=
  if Qltb q 0 then Qceiling q else Qfloor q.

(** Two-sided p-value of the exact binomial test for [k] successes in [m]
    trials under success probability [p]: the total probability of the
    outcomes that are at most as likely as the observed one (compared with
    SciPy's relative tolerance [1e-7]), capped at 1. *)
Definition two_sided_p_value (k m : nat) (p : Q) : Q :=
  let d := binom_pmf k m p in
  let rerr := 1 + (1 # 10000000) in
  let pval :=
    sum_from
      (fun i => if Qle_bool (binom_pmf i m p) (d * rerr)
                then binom_pmf i m p else 0)
      0 (S m) in
  if Qltb pval 1 then pval else 1.

(** [scipy.stats.binom_test(x, n, p)] with the default two-sided
    alternative, at exact arithmetic. Arguments are converted to integers;
    [n < x] and [p] outside [0, 1] are refused. *)
Definition binom_test (x n p : Q) : result Q :=
  let xi := Qtrunc x in
  let ni := Qtrunc n in
  if (ni <? xi)%Z then Raise ValueError
  else if Qltb 1 p || Qltb p 0 then Raise ValueError
  else Ok (two_sided_p_value (Z.to_nat xi) (Z.to_nat ni) p).

(** The Clopper-Pearson lower limit at level [a] for [k] successes in [n]
    trials: 0 when there is no success, and otherwise the proportion [p] at
    which seeing [k] or more successes has probability exactly [a] (the
    [a]-quantile of the Beta([k], [n - k + 1]) distribution). *)
Definition clopper_pearson_lower (k n : nat) (a p : Q) : Prop :=
  (k = 0%nat /\ p == 0) \/
  ((0 < k <= n)%nat /\ 0 <= p <= 1 /\ binom_sf k n p == a).

(** ** RandomizedSmoothingMixin *)

Record RandomizedSmoothingMixin : Type := mk_mixin {
  sample_size : Z;
  scale : Q;
  alpha : Q
}.

(** [__init__(self, sample_size, *args, scale=0.1, alpha=0.001, **kwargs)].
    [super_init] is the outcome of the call to the next [__init__] in the
    method resolution order, which runs first. *)
Definition __init__ (super_init : result unit) (sample_size : Z)
    (scale alpha : option Q) : result RandomizedSmoothingMixin :=
  match super_init with
  | Raise e => Raise e
  | Ok _ =>
      Ok (mk_mixin sample_size (default (1 # 10) scale)
            (default (1 # 1000) alpha))
  end.

Section Mixin.
Context {G : Type} {RS : RandomSource G} {CL : Classifier} {ST : Statistics}.
Variable self : RandomizedSmoothingMixin.

(** The call [self._predict_model(x=x, batch_size=batch_size)]. *)
Definition call_predict_model (x : loc) (batch_size : Z) : M G ndarray :=
  fun w =>
    let (r, h') := _predict_model (w_heap w) x batch_size in
    (r, mk_world h' (w_rng w) (w_stdout w)).

(** [_noisy_samples(self, x, n=None)]: [n] noisy copies of [x] in a new
    array. *)
Definition _noisy_samples (x : view) (n : option Z) : M G loc :=
  let n := match n with None => sample_size self | Some n => n end in
  x <- np_expand_dims x ;;
  x <- np_repeat x n ;;
  size <- np_shape x ;;
  noise <- np_random_normal (scale self) size ;;
  np_add x noise.

(** [_prediction_counts(self, x, n=None, batch_size=128)]: the votes of the
    classifier on the noisy copies, class by class. *)
Definition _prediction_counts (x : view) (n : option Z) (batch_size : Z)
    : M G (list Q) :=
  x_new <- _noisy_samples x n ;;
  predictions <- call_predict_model x_new batch_size ;;
  idx <- lift (np_argmax_rows predictions) ;;
  let pred := np_zeros2 (shape predictions) in
  let pred := set_rows pred idx in
  let counts := np_sum_axis0 (snd (shape predictions)) pred in
  ret counts.

(** [_lower_confidence_bound(self, n_class_samples, n_total_samples)]: the
    lower limit of the interval of [proportion_confint]. *)
Definition _lower_confidence_bound (n_class_samples n_total_samples : Q) : Q :=
  fst (proportion_confint n_class_samples n_total_samples
         (2 * alpha self) "beta").

(** [for x_i in x]: the row views of [x], in order. *)
Definition iter (x : loc) : M G (list view) :=
  n <- len x ;; ret (map (fun i => (x, i)) (seq 0 n)).

Fixpoint for_in {S : Type} (body : view -> S -> M G S) (xs : list view)
    (st : S) : M G S :=
  match xs with
  | [] => ret st
  | x_i :: xs' => st' <- body x_i st ;; for_in body xs' st'
  end.

(** One round of the loop of [predict]; the loop state is
    [(n_abstained, prediction)]. *)
Definition predict_body (batch_size : Z) (is_abstain : bool) (x_i : view)
    (st : nat * list (list Q)) : M G (nat * list (list Q)) :=
  let (n_abstained, prediction) := st in
  counts_pred <- _prediction_counts x_i None batch_size ;;
  let top := rev (argsort counts_pred) in
  count1 <- lift (np_max counts_pred) ;;
  top1 <- lift (getitem top 1) ;;
  count2 <- lift (getitem counts_pred top1) ;;
  let smooth_prediction := np_zeros (length counts_pred) in
  cond <- (if negb is_abstain then ret true
           else
             p_value <- lift (binom_test count1 (count1 + count2) (1 # 2)) ;;
             ret (Qle_bool p_value (alpha self))) ;;
  if cond : bool then
    i <- lift (np_argmax counts_pred) ;;
    ret (n_abstained, prediction ++ [<[i := 1]> smooth_prediction])
  else if is_abstain then
    ret (S n_abstained, prediction ++ [smooth_prediction])
  else
    ret (n_abstained, prediction ++ [smooth_prediction]).

(** The loop of [predict], with its final state [(n_abstained,
    prediction)]. *)
Definition predict_loop (x : loc) (batch_size : Z) (is_abstain : bool)
    : M G (nat * list (list Q)) :=
  xs <- iter x ;;
  for_in (predict_body batch_size is_abstain) xs (0%nat, []).

(** [predict(self, x, batch_size=128, is_abstain=True)]: the loop, the
    report of the abstentions when there are any, and the predictions. The
    message to the logger is left out. *)
Definition predict (x : loc) (batch_size : Z) (is_abstain : bool)
    : M G (list (list Q)) :=
  st <- predict_loop x batch_size is_abstain ;;
  (if (0 <? fst st)%nat then print (Abstained (fst st)) else ret tt) ;;;
  ret (snd st).

(** One round of the loop of [certify]; the loop state is
    [(prediction, radius)]. *)
Definition certify_body (n : Z) (x_i : view) (st : list Z * list Q)
    : M G (list Z * list Q) :=
  let (prediction, radius) := st in
  counts_pred <- _prediction_counts x_i None 128 ;;
  class_select <- lift (np_argmax counts_pred) ;;
  counts_est <- _prediction_counts x_i (Some n) 128 ;;
  count_class <- lift (getitem counts_est class_select) ;;
  let prob_class := _lower_confidence_bound count_class (inject_Z n) in
  if Qltb prob_class (1 # 2) then
    ret (prediction ++ [(-1)%Z], radius ++ [0])
  else
    ret (prediction ++ [Z.of_nat class_select],
         radius ++ [scale self * norm_ppf prob_class]).

(** [certify(self, x, n)]: the classes and the radii, input by input. *)
Definition certify (x : loc) (n : Z) : M G (list Z * list Q) :=
  xs <- iter x ;;
  for_in (certify_body n) xs ([], []).
End Mixin.

(** ** AutoAttack *)

Module AutoAttack.
(** Python's [None]. *)
Inductive NoneType : Type := None_.

(** [generate(self, x, y=None, **kwargs)]: the body is [pass]. *)
Definition generate (x : loc) (y : option loc) (kwargs : list (string * Q))
    : result NoneType := Ok None_.

(** [set_params(self, **kwargs)]: the body is [pass]. *)
Definition set_params (kwargs : list (string * Q)) : result NoneType :=
  Ok None_.
End AutoAttack.

(** * Vocabulary of the statements *)

(** The arg-max index of a row, [0] for an empty one. *)
Definition argmax_ix (r : list Q) : nat :=
  match r with
  | [] => 0%nat
  | a :: l => argmax_from a 0%nat 1%nat l
  end.

(** Number of rows whose arg-max is class [c]. *)
Definition votes_for (c : nat) (rows : list (list Q)) : nat :=
  length (filter (fun r => argmax_ix r = c) rows).

(** The one-hot vector of length [c] at class [i]. *)
Definition one_hot (c i : nat) : list Q := <[i := 1]> (np_zeros c).

Definition is_one_hot (v : list Q) : Prop :=
  exists i, (i < length v)%nat /\ v = one_hot (length v) i.

Definition is_all_zero (v : list Q) : Prop := v = np_zeros (length v).

(** Whether every entry of a prediction is zero. *)
Definition abstained (v : list Q) : bool := forallb (fun q => Qeq_bool q 0) v.

(** Number of abstained predictions in an output. *)
Fixpoint count_abstained (prediction : list (list Q)) : nat :=
  match prediction with
  | [] => 0
  | v :: rest =>
      if abstained v then S (count_abstained rest) else count_abstained rest
  end.

(** A float that holds a whole, non-negative number. *)
Definition whole (q : Q) : Prop := exists k : nat, q = Qnat k.

(** A classifier that writes to no array of the store other than the batch
    it is handed (it may allocate). *)
Definition writes_only_batch (CL : Classifier) : Prop :=
  forall (h : heap) (x : loc) (batch_size : Z) (l : loc),
    l <> x -> (l < length h)%nat ->
    snd (_predict_model h x batch_size) !! l = h !! l.

(** A classifier that honours the contract of the interface: for a batch
    that is in the store it returns a well-shaped score matrix with one row
    per sample and [classes] columns. *)
Definition well_behaved (CL : Classifier) (classes : nat) : Prop :=
  forall (h : heap) (x : loc) (batch_size : Z) (a : ndarray),
    h !! x = Some a ->
    exists m h',
      _predict_model h x batch_size = (Ok m, h') /\
      wf_ndarray m /\ shape m = (fst (shape a), classes).

Section Vocabulary.
Context {G : Type} {RS : RandomSource G} {CL : Classifier} {ST : Statistics}.
Variable self : RandomizedSmoothingMixin.

(** The random source after [k] draws. *)
Fixpoint advance (k : nat) (g : G) : G :=
  match k with
  | O => g
  | S k' => advance k' (snd (standard_normal g))
  end.

(** Draw number [i], counted from 0, of the random source started at [g]. *)
Definition nth_draw (i : nat) (g : G) : Q :=
fst (standard_normal (advance i g)).

(** The sample count a call works with: [n], or [sample_size] for [None]. *)
Definition samples_requested (n : option Z) : Z :=
match n with None => sample_size self | Some n => n end.

(** The array at [l] holds [a] after the call if it did before. *)
Definition keeps (l : loc) (a : ndarray) (w w' : world G) : Prop :=
w_heap w !! l = Some a -> w_heap w' !! l = Some a.

(** [counts] are vote counts that [_prediction_counts] returns for the
  input [x_i] with the configured sample size, with largest count
  [count1] and second count [count2 = counts[top[1]]]. *)
Definition voted (batch_size : Z) (x_i : view) (counts : list Q)
  (count1 count2 : Q) : Prop :=
exists (w0 w1 : world G) (top1 : nat),
  _prediction_counts self x_i None batch_size w0 = (Ok counts, w1) /\
  np_max counts = Ok count1 /\
  getitem (rev (argsort counts)) 1 = Ok top1 /\
  getitem counts top1 = Ok count2.

(** The prediction for one input when abstention is off. *)
Definition decided_without_test (batch_size : Z) (x_i : view) (v : list Q)
  : Prop :=
exists counts count1 count2,
  voted batch_size x_i counts count1 count2 /\
  np_argmax counts = Ok (argmax_ix counts) /\
  v = one_hot (length counts) (argmax_ix counts).

(** The prediction for one input when abstention is on. *)
Definition decided_by_test (batch_size : Z) (x_i : view) (v : list Q)
  : Prop :=
exists counts count1 count2 p_value,
  voted batch_size x_i counts count1 count2 /\
  np_argmax counts = Ok (argmax_ix counts) /\
  binom_test count1 (count1 + count2) (1 # 2) = Ok p_value /\
  (p_value <= alpha self <->
     v = one_hot (length counts) (argmax_ix counts)) /\
  (~ p_value <= alpha self <-> v = np_zeros (length counts)).

(** The pair that [certify] appends for a selected class and its vote
  count among [n] certification samples. *)
Definition certified_pair (class_select : nat) (count_class : Q) (n : Z)
  : Z * Q :=
let prob_class := _lower_confidence_bound self count_class (inject_Z n) in
if Qltb prob_class (1 # 2) then ((-1)%Z, 0)
else (Z.of_nat class_select, scale self * norm_ppf prob_class).

(** [class_select] is the arg-max of a first vote over [sample_size]
  samples of [x_i], and [count_class] its count in a second vote over
  [n] samples. *)
Definition selected (n : Z) (x_i : view) (class_select : nat)
  (count_class : Q) : Prop :=
exists (w0 w1 w2 : world G) counts_pred counts_est,
  _prediction_counts self x_i None 128 w0 = (Ok counts_pred, w1) /\
  np_argmax counts_pred = Ok class_select /\
  _prediction_counts self x_i (Some n) 128 w1 = (Ok counts_est, w2) /\
  getitem counts_est class_select = Ok count_class.

End Vocabulary.

(** ** Test doubles *)

Module Scenario.
(** A deterministic random source: the state counts the draws, which cycle
    through -1, 0, 1. *)
Definition counter_source : RandomSource nat :=
  {| standard_normal g := (Qnat (g mod 3) - 1, S g) |}.

(** A classifier over [classes] classes that scores the class
    [pick i] highest for the [i]-th sample of the batch, and leaves the
    store as it is. *)
Definition scores (classes : nat) (pick : nat -> nat) (a : ndarray) : ndarray :=
  mk_ndarray (fst (shape a), classes)
    (map (fun i => <[pick i := 1]> (np_zeros classes)) (seq 0 (fst (shape a)))).

Definition picking (classes : nat) (pick : nat -> nat) : Classifier :=
  {| _predict_model h x batch_size :=
       match h !! x with
       | Some a => (Ok (scores classes pick a), h)
       | None => (Raise ReferenceError, h)
       end |}.

(** Class 0 for every sample, two classes. *)
Definition always0 : Classifier := picking 2 (fun _ => 0%nat).

(** Class 0 for one half of the samples and class 1 for the other half. *)
Definition half_half : Classifier := picking 2 (fun i => (i mod 2)%nat).

(** A model with a single output class. *)
Definition one_class : Classifier := picking 1 (fun _ => 0%nat).

(** Numeric routines for a certification from a single trial, where the
    Clopper-Pearson interval is rational: [(0, 1 - alpha/2)] without a
    success and [(alpha/2, 1)] with one. The quantile function is a
    linear stand-in that is increasing and vanishes at 1/2. *)
Definition single_trial : Statistics :=
  {| proportion_confint count nobs alpha method :=
       if Qle_bool count 0 then (0, 1 - alpha / 2) else (alpha / 2, 1);
     norm_ppf p := p - (1 # 2) |}.


(** A classifier that scores like [picking] and then overwrites the batch
    it was handed. *)
Definition clobbering (classes : nat) (pick : nat -> nat) : Classifier :=
  {| _predict_model h x batch_size :=
       match h !! x with
       | Some a =>
           (Ok (scores classes pick a), <[x := mk_ndarray (0%nat, 0%nat) []]> h)
       | None => (Raise ReferenceError, h)
       end |}.

(** The caller's world: one input array [x] at location 0. *)
Definition one_input (row : list Q) : world nat :=
  mk_world [mk_ndarray (1%nat, length row) [row]] 0%nat [].

(** Four samples per vote, noise scale 1/4, [alpha] = 1/1000. *)
Definition four_samples : RandomizedSmoothingMixin :=
  mk_mixin 4 (1 # 4) (1 # 1000).

Definition x_world : world nat := one_input [1; 2].

Definition by_halves (i : nat) : nat := (i mod 2)%nat.

(** The batch that [_noisy_samples] draws first in [x_world], and the
    world it leaves. *)
Definition first_batch : ndarray :=
  mk_ndarray (4%nat, 2%nat)
    [[3 # 4; 8 # 4]; [5 # 4; 7 # 4]; [4 # 4; 9 # 4]; [3 # 4; 8 # 4]].

Definition after_sampling : world nat :=
  snd (_noisy_samples (RS := counter_source) four_samples (0%nat, 0%nat)
         None x_world).

(** [alpha] = 1/2, for a certification from one sample. *)
Definition even_odds : RandomizedSmoothingMixin :=
  mk_mixin 4 (1 # 4) (1 # 2).


(** The array of [x_world]. *)
Definition x_array : ndarray := mk_ndarray (1%nat, 2%nat) [[1; 2]].

(** A world whose input array has no row. *)
Definition empty_world : world nat :=
  mk_world [mk_ndarray (0%nat, 2%nat) []] 0%nat [].

(** A configuration with a scale below zero. *)
Definition negative_scale : RandomizedSmoothingMixin :=
  mk_mixin 4 (-1 # 4) (1 # 1000).
End Scenario.

(** * Properties *)

(** ** Comparisons and rational arithmetic *)

Lemma Qltb_lt a b : Qltb a b = true <-> a < b.
Proof.
  unfold Qltb. rewrite negb_true_iff.
  split; intros Hab.
  - apply Qnot_le_lt. intros Hle. apply Qle_bool_iff in Hle. congruence.
  - destruct (Qle_bool b a) eqn:E; [|reflexivity].
    apply Qle_bool_iff in E. exfalso. apply (Qlt_not_le _ _ Hab E).
Qed.

Lemma Qltb_ge a b : Qltb a b = false <-> b <= a.
Proof.
  unfold Qltb. rewrite negb_false_iff. apply Qle_bool_iff.
Qed.

Lemma Qnat_plus a b : Qnat a + Qnat b = Qnat (a + b).
Proof.
  unfold Qnat, Qplus, inject_Z. simpl.
  f_equal. rewrite !Z.mul_1_r. lia.
Qed.

Lemma Qnat_le a b : (a <= b)%nat -> Qnat a <= Qnat b.
Proof.
  intros Hab. unfold Qnat. rewrite <- Zle_Qle. lia.
Qed.

Lemma Qnat_nonneg a : 0 <= Qnat a.
Proof. apply (Qnat_le 0 a). lia. Qed.

(** ** The monad of calls *)

Section MonadLemmas.
Context {G : Type}.

Lemma bind_ok {A B} (m : M G A) (k : A -> M G B) w a w1 :
  m w = (Ok a, w1) -> bind m k w = k a w1.
Proof. intros Hm. unfold bind. rewrite Hm. reflexivity. Qed.

Lemma bind_raise {A B} (m : M G A) (k : A -> M G B) w e w1 :
  m w = (Raise e, w1) -> bind m k w = (Raise e, w1).
Proof. intros Hm. unfold bind. rewrite Hm. reflexivity. Qed.

Lemma bind_inv {A B} (m : M G A) (k : A -> M G B) w b w' :
  bind m k w = (Ok b, w') ->
  exists a w1, m w = (Ok a, w1) /\ k a w1 = (Ok b, w').
Proof.
  unfold bind. destruct (m w) as [[a|e] w1]; intros Hk.
  - exists a, w1. split; [reflexivity | exact Hk].
  - discriminate.
Qed.

Lemma lift_inv {A} (r : result A) (w : world G) a w' :
  lift r w = (Ok a, w') -> r = Ok a /\ w' = w.
Proof. unfold lift. intros Hr. inversion Hr. split; reflexivity. Qed.

Lemma ret_inv {A} (a b : A) (w w' : world G) :
  ret a w = (Ok b, w') -> a = b /\ w' = w.
Proof. unfold ret. intros Hr. inversion Hr. split; reflexivity. Qed.
End MonadLemmas.

(** ** Vote counting *)

Lemma argmax_from_lt l : forall best bi i,
  (bi < i)%nat -> (argmax_from best bi i l < i + length l)%nat.
Proof.
  induction l as [|v l IH]; intros best bi i Hlt; simpl.
  - lia.
  - destruct (Qltb best v).
    + specialize (IH v i (S i)). lia.
    + specialize (IH best bi (S i)). lia.
Qed.

Lemma argmax_ix_lt r : r <> [] -> (argmax_ix r < length r)%nat.
Proof.
  destruct r as [|a l]; [congruence|]. intros _. simpl.
  pose proof (argmax_from_lt l a 0%nat 1%nat). lia.
Qed.

Lemma np_argmax_ok r : r <> [] -> np_argmax r = Ok (argmax_ix r).
Proof. destruct r; [congruence | reflexivity]. Qed.

(** [argmax_from] returns the position of the first largest entry. *)
Lemma argmax_from_spec (L : list Q) : forall rest best bi i,
  drop i L = rest ->
  L !! bi = Some best -> (bi < i)%nat ->
  (forall j v, (j < i)%nat -> L !! j = Some v -> v <= best) ->
  (forall j v, (j < bi)%nat -> L !! j = Some v -> v < best) ->
  exists m,
    L !! argmax_from best bi i rest = Some m /\
    (forall j v, L !! j = Some v -> v <= m) /\
    (forall j v, (j < argmax_from best bi i rest)%nat ->
       L !! j = Some v -> v < m).
Proof.
  induction rest as [|v rest IH]; intros best bi i Hdrop Hbest Hlt Hle Hbefore.
  - simpl. exists best. split; [exact Hbest|]. split; [|exact Hbefore].
    intros j u Hj. apply (Hle j u); [|exact Hj].
    apply lookup_lt_Some in Hj.
    assert (Hlen : (length L <= i)%nat).
    { rewrite <- (Nat.add_0_r i), <- (length_nil (A := Q)), <- Hdrop.
      rewrite length_drop. lia. }
    lia.
  - assert (Hi : L !! i = Some v).
    { rewrite <- (Nat.add_0_r i), <- lookup_drop, Hdrop. reflexivity. }
    assert (Hdrop' : drop (S i) L = rest).
    { replace (S i) with (i + 1)%nat by lia.
      rewrite <- drop_drop, Hdrop. reflexivity. }
    simpl. destruct (Qltb best v) eqn:Hcmp.
    + apply Qltb_lt in Hcmp. apply IH; [exact Hdrop' | exact Hi | lia | |].
      * intros j u Hj Hu. destruct (decide (j = i)) as [->|Hne].
        -- rewrite Hi in Hu. inversion Hu. apply Qle_refl.
        -- apply Qle_trans with best; [|apply Qlt_le_weak; exact Hcmp].
           apply (Hle j u); [lia | exact Hu].
      * intros j u Hj Hu.
        apply Qle_lt_trans with best; [|exact Hcmp].
        apply (Hle j u); [lia | exact Hu].
    + apply Qltb_ge in Hcmp. apply IH; [exact Hdrop' | exact Hbest | lia | |].
      * intros j u Hj Hu. destruct (decide (j = i)) as [->|Hne].
        -- rewrite Hi in Hu. inversion Hu; subst. exact Hcmp.
        -- apply (Hle j u); [lia | exact Hu].
      * exact Hbefore.
Qed.

(** [np.argmax]: the entry at the returned index is not below any entry,
    and is above every entry before it. *)
Lemma np_argmax_spec (v : list Q) i :
  np_argmax v = Ok i ->
  exists m,
    v !! i = Some m /\
    (forall j u, v !! j = Some u -> u <= m) /\
    (forall j u, (j < i)%nat -> v !! j = Some u -> u < m).
Proof.
  destruct v as [|a l]; [discriminate|]. simpl. intros Hi.
  inversion Hi as [Heq]. clear Hi.
  apply (argmax_from_spec (a :: l) l a 0%nat 1%nat).
  - reflexivity.
  - reflexivity.
  - lia.
  - intros j u Hj Hu. replace j with 0%nat in Hu by lia.
    inversion Hu. apply Qle_refl.
  - intros j u Hj. lia.
Qed.

Lemma map_result_argmax rows :
  Forall (fun r => r <> []) rows ->
  map_result np_argmax rows = Ok (map argmax_ix rows).
Proof.
  induction 1 as [|r rows Hr _ IH]; simpl; [reflexivity|].
  rewrite (np_argmax_ok r Hr), IH. reflexivity.
Qed.

Lemma np_argmax_rows_ok m :
  wf_ndarray m -> (0 < snd (shape m))%nat ->
  np_argmax_rows m = Ok (map argmax_ix (data m)).
Proof.
  intros [_ Hrows] Hc. unfold np_argmax_rows.
  destruct (Nat.eqb_spec (snd (shape m)) 0); [lia|].
  apply map_result_argmax.
  eapply Forall_impl; [exact Hrows|].
  intros r Hr Hnil. subst r. simpl in Hr. lia.
Qed.

Lemma set_rows_replicate z idx :
  set_rows (replicate (length idx) z) idx = map (fun i => <[i := 1]> z) idx.
Proof.
  unfold set_rows. induction idx as [|i idx IH]; simpl; [reflexivity|].
  f_equal. exact IH.
Qed.

(** A column sum of one-hot rows counts the rows that point at the column. *)
Lemma np_sum_axis0_one_hot c idx :
  Forall (fun i => (i < c)%nat) idx ->
  np_sum_axis0 c (map (fun i => <[i := 1]> (np_zeros c)) idx)
  = map (fun j => Qnat (length (filter (fun i => i = j) idx))) (seq 0 c).
Proof.
  induction 1 as [|i idx Hi _ IH].
  - simpl. unfold np_zeros. apply list_eq. intros j.
    rewrite list_lookup_fmap.
    destruct (decide (j < c)%nat) as [Hj|Hj].
    + rewrite lookup_replicate_2 by exact Hj.
      rewrite lookup_seq_lt by exact Hj. reflexivity.
    + rewrite (proj1 (lookup_replicate_None c 0 j)) by lia.
      rewrite lookup_seq_ge by lia. reflexivity.
  - change (zip_with Qplus (<[i := 1]> (np_zeros c))
              (np_sum_axis0 c (map (fun i => <[i := 1]> (np_zeros c)) idx))
            = map (fun j => Qnat (length (filter (fun i => i = j) (i :: idx))))
                (seq 0 c)).
    rewrite IH. clear IH.
    apply list_eq. intros j.
    rewrite lookup_zip_with, !list_lookup_fmap.
    destruct (decide (j < c)%nat) as [Hj|Hj].
    + rewrite lookup_seq_lt by exact Hj. simpl.
      destruct (decide (i = j)) as [->|Hij].
      * rewrite list_lookup_insert_eq
          by (unfold np_zeros; rewrite length_replicate; exact Hj).
        simpl. rewrite filter_cons_True by reflexivity. simpl.
        f_equal. apply (Qnat_plus 1).
      * rewrite list_lookup_insert_ne by exact Hij.
        unfold np_zeros. rewrite lookup_replicate_2 by exact Hj. simpl.
        rewrite filter_cons_False by exact Hij.
        f_equal. apply (Qnat_plus 0).
    + rewrite lookup_seq_ge by lia. simpl.
      destruct (<[i:=1]> (np_zeros c) !! j); reflexivity.
Qed.

Lemma np_sum_cons a l : np_sum (a :: l) = a + np_sum l.
Proof. reflexivity. Qed.

Lemma np_sum_Qnat (f : nat -> nat) l :
  np_sum (map (fun j => Qnat (f j)) l) = Qnat (sum_list_with f l).
Proof.
  induction l as [|j l IH]; [reflexivity|].
  rewrite !map_cons, np_sum_cons, IH. apply Qnat_plus.
Qed.

Lemma sum_list_indicator_other (i : nat) l :
  Forall (fun j => j <> i) l ->
  sum_list_with (fun j => length (filter (fun k => k = j) [i])) l = 0%nat.
Proof.
  induction 1 as [|j l Hj _ IH]; simpl; [reflexivity|].
  rewrite filter_cons_False by congruence. simpl. exact IH.
Qed.

Lemma sum_list_indicator (i c : nat) :
  (i < c)%nat ->
  sum_list_with (fun j => length (filter (fun k => k = j) [i])) (seq 0 c)
  = 1%nat.
Proof.
  intros Hi.
  replace c with (i + S (c - S i))%nat by lia.
  rewrite seq_app, sum_list_with_app. simpl.
  rewrite filter_cons_True by reflexivity. simpl.
  rewrite !sum_list_indicator_other; [lia | |].
  - apply Forall_forall. intros j Hj. apply elem_of_seq in Hj. lia.
  - apply Forall_forall. intros j Hj. apply elem_of_seq in Hj. lia.
Qed.

Lemma sum_list_occurrences_cons (i : nat) idx l :
  sum_list_with (fun j => length (filter (fun k => k = j) (i :: idx))) l
  = (sum_list_with (fun j => length (filter (fun k => k = j) [i])) l
     + sum_list_with (fun j => length (filter (fun k => k = j) idx)) l)%nat.
Proof.
  induction l as [|j l IHl]; simpl; [reflexivity|].
  rewrite IHl.
  destruct (decide (i = j)) as [->|Hij].
  - rewrite !filter_cons_True by reflexivity. simpl. lia.
  - rewrite !filter_cons_False by exact Hij. simpl. lia.
Qed.

Lemma sum_list_occurrences c idx :
  Forall (fun i => (i < c)%nat) idx ->
  sum_list_with (fun j => length (filter (fun i => i = j) idx)) (seq 0 c)
  = length idx.
Proof.
  induction 1 as [|i idx Hi _ IH].
  - simpl. induction (seq 0 c) as [|j l IHl]; simpl; [reflexivity | exact IHl].
  - rewrite sum_list_occurrences_cons, IH, (sum_list_indicator i c Hi).
    reflexivity.
Qed.

Lemma votes_for_map c rows :
  length (filter (fun i => i = c) (map argmax_ix rows)) = votes_for c rows.
Proof.
  unfold votes_for. induction rows as [|r rows IH]; simpl; [reflexivity|].
  destruct (decide (argmax_ix r = c)) as [Hr|Hr].
  - rewrite !filter_cons_True by exact Hr. simpl. f_equal. exact IH.
  - rewrite !filter_cons_False by exact Hr. exact IH.
Qed.

(** The vote count of a well-shaped score matrix: one entry per class, the
    entry of a class being the number of rows whose arg-max it is. *)
Lemma vote_counts_spec m :
  wf_ndarray m -> (0 < snd (shape m))%nat ->
  np_sum_axis0 (snd (shape m))
    (set_rows (np_zeros2 (shape m)) (map argmax_ix (data m)))
  = map (fun c => Qnat (votes_for c (data m))) (seq 0 (snd (shape m))).
Proof.
  intros [Hn Hrows] Hc. unfold np_zeros2.
  rewrite <- Hn, <- (length_map argmax_ix), set_rows_replicate.
  rewrite np_sum_axis0_one_hot.
  - apply map_ext. intros c. f_equal. apply votes_for_map.
  - apply Forall_map. eapply Forall_impl; [exact Hrows|].
    intros r Hr. simpl. rewrite <- Hr. apply argmax_ix_lt.
    intros ->. simpl in Hr. lia.
Qed.

(** Every row votes once: the votes of all classes add up to the number of
    rows. *)
Lemma votes_total c rows :
  Forall (fun r => length r = c) rows -> (0 < c)%nat ->
  sum_list_with (fun j => votes_for j rows) (seq 0 c) = length rows.
Proof.
  intros Hrows Hc.
  rewrite <- (length_map argmax_ix rows).
  rewrite <- (sum_list_occurrences c (map argmax_ix rows)).
  - clear Hrows. generalize (seq 0 c). intros l.
    induction l as [|j l IHl]; simpl; [reflexivity|].
    rewrite IHl, votes_for_map. reflexivity.
  - apply Forall_map. eapply Forall_impl; [exact Hrows|].
    intros r Hr. simpl. rewrite <- Hr. apply argmax_ix_lt.
    intros ->. simpl in Hr. lia.
Qed.

(** ** The store under [_noisy_samples] *)

Section StoreLemmas.
Context {G : Type} {RS : RandomSource G} {CL : Classifier} {ST : Statistics}.
Variable self : RandomizedSmoothingMixin.

Lemma draw_row_length s d g : length (fst (draw_row s d g)) = d.
Proof.
  revert g. induction d as [|d IH]; intros g; simpl; [reflexivity|].
  destruct (standard_normal g) as [z g1].
  specialize (IH g1). destruct (draw_row s d g1) as [zs g2].
  simpl in *. f_equal. exact IH.
Qed.

Lemma draw_rows_length s n d g : length (fst (draw_rows s n d g)) = n.
Proof.
  revert g. induction n as [|n IH]; intros g; simpl; [reflexivity|].
  destruct (draw_row s d g) as [r g1].
  specialize (IH g1). destruct (draw_rows s n d g1) as [rs g2].
  simpl in *. f_equal. exact IH.
Qed.

(** [_noisy_samples] only appends to the store; when it returns, the
    result is a new array with one row per requested sample. *)
Lemma noisy_samples_store (x : view) (n : option Z) (w : world G) :
  exists k,
    w_heap (snd (_noisy_samples self x n w)) = w_heap w ++ k /\
    w_stdout (snd (_noisy_samples self x n w)) = w_stdout w /\
    forall l, fst (_noisy_samples self x n w) = Ok l ->
      (length (w_heap w) <= l)%nat /\
      (0 <= samples_requested self n)%Z /\
      (0 <= scale self) /\
      exists a, (w_heap w ++ k) !! l = Some a /\
                fst (shape a) = Z.to_nat (samples_requested self n).
Proof.
  unfold _noisy_samples, np_expand_dims, np_repeat, read_view, np_shape,
    np_random_normal, np_add, read, alloc, bind, ret, raise.
  fold (samples_requested self n).
  destruct w as [h g out]. destruct x as [lx i]. simpl.
  destruct (h !! lx) as [ax|] eqn:Hlx; simpl;
    [|exists []; rewrite app_nil_r; repeat split; intros; discriminate].
  destruct (data ax !! i) as [row|] eqn:Hrow; simpl;
    [|exists []; rewrite app_nil_r; repeat split; intros; discriminate].
  destruct (Z.ltb_spec (samples_requested self n) 0) as [Hn|Hn]; simpl;
    [exists []; rewrite app_nil_r; repeat split; intros; discriminate|].
  set (a1 := mk_ndarray (Z.to_nat (samples_requested self n), length row)
               (replicate (Z.to_nat (samples_requested self n)) row)).
  rewrite lookup_app_r by lia. rewrite Nat.sub_diag. simpl.
  destruct (Qltb (scale self) 0) eqn:Hs; simpl.
  { exists [a1]. repeat split; intros; discriminate. }
  destruct (draw_rows (scale self) (Z.to_nat (samples_requested self n))
              (length row) g) as [rows g'] eqn:Hd. simpl.
  set (a2 := mk_ndarray (Z.to_nat (samples_requested self n), length row) rows).
  rewrite <- app_assoc. simpl.
  rewrite lookup_app_r by lia. rewrite Nat.sub_diag. simpl.
  rewrite length_app. simpl.
  rewrite lookup_app_r by lia.
  replace (length h + 1 - length h)%nat with 1%nat by lia. simpl.
  set (a3 := mk_ndarray _ _).
  exists [a1; a2; a3]. rewrite <- app_assoc. simpl.
  split; [reflexivity|]. split; [reflexivity|].
  intros l Hl. inversion Hl; subst l. clear Hl.
  rewrite length_app. simpl.
  split; [lia|]. split; [exact Hn|].
  split; [apply Qltb_ge; exact Hs|].
  exists a3. split.
  - rewrite lookup_app_r by lia.
    replace (length h + 2 - length h)%nat with 2%nat by lia. reflexivity.
  - reflexivity.
Qed.
End StoreLemmas.

(** ** Vote counts of [_prediction_counts] *)

Section PredictionCounts.
Context {G : Type} {RS : RandomSource G} {CL : Classifier} {ST : Statistics}.
Variable self : RandomizedSmoothingMixin.

(** Once the batch is drawn and scored, [_prediction_counts] returns the
    tally of the score matrix and has no further effect. *)
Lemma prediction_counts_run x n bs (w w1 w2 : world G) x_new predictions :
  _noisy_samples self x n w = (Ok x_new, w1) ->
  call_predict_model x_new bs w1 = (Ok predictions, w2) ->
  wf_ndarray predictions ->
  (0 < snd (shape predictions))%nat ->
  _prediction_counts self x n bs w
  = (Ok (map (fun c => Qnat (votes_for c (data predictions)))
           (seq 0 (snd (shape predictions)))), w2).
Proof.
  intros Hs Hp Hwf Hc. unfold _prediction_counts.
  rewrite (bind_ok _ _ _ _ _ Hs), (bind_ok _ _ _ _ _ Hp).
  unfold bind, lift, ret.
  rewrite (np_argmax_rows_ok _ Hwf Hc), (vote_counts_spec _ Hwf Hc).
  reflexivity.
Qed.

(** Whenever [_prediction_counts] returns, the batch was drawn and scored
    and the result is computed from the score matrix alone. *)
Lemma prediction_counts_inv x n bs (w w' : world G) counts :
  _prediction_counts self x n bs w = (Ok counts, w') ->
  exists x_new w1 predictions idx,
    _noisy_samples self x n w = (Ok x_new, w1) /\
    call_predict_model x_new bs w1 = (Ok predictions, w') /\
    np_argmax_rows predictions = Ok idx /\
    counts = np_sum_axis0 (snd (shape predictions))
               (set_rows (np_zeros2 (shape predictions)) idx).
Proof.
  unfold _prediction_counts. intros Hrun.
  apply bind_inv in Hrun as (x_new & w1 & Hs & Hrun).
  apply bind_inv in Hrun as (predictions & w2 & Hp & Hrun).
  apply bind_inv in Hrun as (idx & w3 & Hi & Hrun).
  apply lift_inv in Hi as [Hi ->].
  apply ret_inv in Hrun as [<- ->].
  exists x_new, w1, predictions, idx. repeat split; assumption.
Qed.
End PredictionCounts.

(** Sums of columns of rows of zeros and ones. *)
Lemma column_sums_bounded c rows :
  Forall (Forall (fun q : Q => q = 0 \/ q = 1)) rows ->
  Forall (fun q => exists k : nat, q = Qnat k /\ (k <= length rows)%nat)
    (np_sum_axis0 c rows).
Proof.
  unfold np_sum_axis0. induction 1 as [|r rows Hr _ IH]; simpl.
  - unfold np_zeros. apply Forall_replicate. exists 0%nat.
    split; [reflexivity | lia].
  - revert IH. generalize (fold_right (zip_with Qplus) (np_zeros c) rows).
    intros acc Hacc. revert acc Hacc.
    induction Hr as [|b r Hb _ IHr]; intros acc Hacc; [constructor|].
    destruct Hacc as [|q acc [k [-> Hk]] Hacc]; simpl; constructor.
    + destruct Hb as [-> | ->].
      * exists (0 + k)%nat. split; [apply (Qnat_plus 0) | lia].
      * exists (1 + k)%nat. split; [apply (Qnat_plus 1) | lia].
    + apply IHr. exact Hacc.
Qed.

Lemma set_rows_bits n c idx :
  Forall (Forall (fun q : Q => q = 0 \/ q = 1))
    (set_rows (np_zeros2 (n, c)) idx) /\
  (length (set_rows (np_zeros2 (n, c)) idx) <= n)%nat.
Proof.
  unfold set_rows, np_zeros2. simpl. split.
  - revert idx. induction n as [|n IH]; intros [|i idx]; simpl;
      try constructor; [|apply IH].
    apply Forall_insert; [|right; reflexivity].
    unfold np_zeros. apply Forall_replicate. left. reflexivity.
  - rewrite length_zip_with, length_replicate. lia.
Qed.

(** C8. For a classifier output of shape (n, nb_classes) with at least one
    class, [_prediction_counts] returns a vector with one entry per class;
    the entry of class [c] is the number of samples whose arg-max is [c], so
    every sample casts exactly one vote; and the entries sum to [n], which
    is the number of samples drawn when the classifier returns one row per
    sample. *)
Theorem prediction_counts_one_vote_per_sample
    {G : Type} {RS : RandomSource G} {CL : Classifier}
    (self : RandomizedSmoothingMixin) (x : view) (n : option Z) (bs : Z)
    (w w1 w2 : world G) (x_new : loc) (batch predictions : ndarray) :
  _noisy_samples self x n w = (Ok x_new, w1) ->
  w_heap w1 !! x_new = Some batch ->
  call_predict_model x_new bs w1 = (Ok predictions, w2) ->
  wf_ndarray predictions ->
  fst (shape predictions) = fst (shape batch) ->
  (0 < snd (shape predictions))%nat ->
  exists counts,
    _prediction_counts self x n bs w = (Ok counts, w2) /\
    length counts = snd (shape predictions) /\
    (forall c, (c < snd (shape predictions))%nat ->
       counts !! c = Some (Qnat (votes_for c (data predictions)))) /\
    sum_list_with (fun c => votes_for c (data predictions))
      (seq 0 (snd (shape predictions))) = length (data predictions) /\
    length (data predictions) = Z.to_nat (samples_requested self n) /\
    np_sum counts = Qnat (Z.to_nat (samples_requested self n)).
Proof.
  intros Hs Hb Hp Hwf Hrows Hc.
  eexists. split; [exact (prediction_counts_run self _ _ _ _ _ _ _ _ Hs Hp Hwf Hc)|].
  destruct (noisy_samples_store self x n w) as (k & Hheap & _ & Hok).
  rewrite Hs in Hheap, Hok. simpl in Hheap, Hok.
  destruct (Hok x_new eq_refl) as (_ & _ & _ & a & Ha & Hshape).
  rewrite <- Hheap, Hb in Ha. inversion Ha; subst a. clear Ha.
  destruct Hwf as [Hn Hlen].
  pose proof (votes_total _ _ Hlen Hc) as Hsum.
  split; [rewrite length_map, length_seq; reflexivity|].
  split.
  { intros c Hlt. rewrite list_lookup_fmap, lookup_seq_lt by exact Hlt.
    reflexivity. }
  split; [exact Hsum|].
  split; [rewrite Hn, Hrows, Hshape; reflexivity|].
  rewrite np_sum_Qnat, Hsum, Hn, Hrows, Hshape. reflexivity.
Qed.

(** ** Shapes of a prediction *)

Lemma abstained_zeros c : abstained (np_zeros c) = true.
Proof. induction c as [|c IH]; simpl; [reflexivity | exact IH]. Qed.

Lemma abstained_one_hot c i : (i < c)%nat -> abstained (one_hot c i) = false.
Proof.
  revert i. induction c as [|c IH]; intros i Hi; [lia|].
  destruct i as [|i]; simpl; [reflexivity|].
  apply IH. lia.
Qed.

Lemma one_hot_length c i : length (one_hot c i) = c.
Proof. unfold one_hot, np_zeros. rewrite length_insert, length_replicate. reflexivity. Qed.

Lemma one_hot_not_zero c i : (i < c)%nat -> one_hot c i <> np_zeros c.
Proof.
  intros Hi Heq. pose proof (abstained_one_hot c i Hi) as Hf.
  rewrite Heq, abstained_zeros in Hf. discriminate.
Qed.

Lemma count_abstained_app l1 l2 :
  count_abstained (l1 ++ l2) = (count_abstained l1 + count_abstained l2)%nat.
Proof.
  induction l1 as [|v l1 IH]; simpl; [reflexivity|].
  rewrite IH. destruct (abstained v); reflexivity.
Qed.

Lemma insert_by_length v i l : length (insert_by v i l) = S (length l).
Proof.
  induction l as [|j l IH]; simpl; [reflexivity|].
  destruct (Qltb _ _); simpl; [reflexivity|]. rewrite IH. reflexivity.
Qed.

Lemma argsort_length v : length (argsort v) = length v.
Proof.
  unfold argsort.
  assert (Hgen : forall l acc,
    length (fold_left (fun acc i => insert_by v i acc) l acc)
    = (length l + length acc)%nat).
  { induction l as [|i l IH]; intros acc; simpl; [reflexivity|].
    rewrite IH, insert_by_length. lia. }
  rewrite Hgen, length_seq. simpl. lia.
Qed.

(** ** Loops *)

Section Loops.
Context {G : Type} {RS : RandomSource G} {CL : Classifier} {ST : Statistics}.

(** A property of the loop state that every successful round keeps holds
    when the loop returns. *)
Lemma for_in_invariant {S : Type} (body : view -> S -> M G S)
    (I : S -> Prop) :
  (forall x_i st w st' w', I st -> body x_i st w = (Ok st', w') -> I st') ->
  forall xs st w st' w',
    I st -> for_in body xs st w = (Ok st', w') -> I st'.
Proof.
  intros Hbody xs. induction xs as [|x_i xs IH]; intros st w st' w' HI Hrun.
  - apply ret_inv in Hrun as [<- _]. exact HI.
  - simpl in Hrun. apply bind_inv in Hrun as (st1 & w1 & Hb & Hrun).
    eapply IH; [|exact Hrun]. eapply Hbody; eassumption.
Qed.

(** A reflexive and transitive relation between worlds that every round
    establishes, whatever its outcome, holds across the loop. *)
Lemma for_in_world {S : Type} (body : view -> S -> M G S)
    (R : world G -> world G -> Prop) (P : view -> Prop) :
  (forall w, R w w) ->
  (forall w1 w2 w3, R w1 w2 -> R w2 w3 -> R w1 w3) ->
  (forall x_i st w, P x_i -> R w (snd (body x_i st w))) ->
  forall xs st w, Forall P xs -> R w (snd (for_in body xs st w)).
Proof.
  intros Hrefl Htrans Hbody xs.
  induction xs as [|x_i xs IH]; intros st w HP.
  - apply Hrefl.
  - inversion HP as [|? ? Hx Hxs]; subst.
    simpl. unfold bind.
    pose proof (Hbody x_i st w Hx) as H1.
    destruct (body x_i st w) as [[st1|e] w1]; simpl in *.
    + eapply Htrans; [exact H1|]. apply IH. exact Hxs.
    + exact H1.
Qed.
End Loops.

(** ** The decision of [predict] *)

Section Predict.
Context {G : Type} {RS : RandomSource G} {CL : Classifier} {ST : Statistics}.
Variable self : RandomizedSmoothingMixin.

(** What a successful round of the loop of [predict] did. *)
Lemma predict_body_inv bs ia x_i na pr (w w' : world G) na' pr' :
  predict_body self bs ia x_i (na, pr) w = (Ok (na', pr'), w') ->
  exists counts count1 top1 count2,
    _prediction_counts self x_i None bs w = (Ok counts, w') /\
    np_max counts = Ok count1 /\
    getitem (rev (argsort counts)) 1 = Ok top1 /\
    getitem counts top1 = Ok count2 /\
    ((ia = false /\ na' = na /\
      pr' = pr ++ [one_hot (length counts) (argmax_ix counts)]) \/
     (ia = true /\
      exists p_value,
        binom_test count1 (count1 + count2) (1 # 2) = Ok p_value /\
        ((p_value <= alpha self /\ na' = na /\
          pr' = pr ++ [one_hot (length counts) (argmax_ix counts)]) \/
         (alpha self < p_value /\ na' = S na /\
          pr' = pr ++ [np_zeros (length counts)])))).
Proof.
  unfold predict_body. intros Hrun.
  apply bind_inv in Hrun as (counts & w1 & Hc & Hrun).
  apply bind_inv in Hrun as (count1 & w2 & H1 & Hrun).
  apply lift_inv in H1 as [H1 ->].
  apply bind_inv in Hrun as (top1 & w2 & Ht & Hrun).
  apply lift_inv in Ht as [Ht ->].
  apply bind_inv in Hrun as (count2 & w2 & H2 & Hrun).
  apply lift_inv in H2 as [H2 ->].
  apply bind_inv in Hrun as (cond & w2 & Hcond & Hrun).
  assert (Hne : counts <> []).
  { intros ->. discriminate. }
  exists counts, count1, top1, count2.
  destruct ia; simpl in Hcond.
  - apply bind_inv in Hcond as (p_value & w3 & Hp & Hcond).
    apply lift_inv in Hp as [Hp ->].
    apply ret_inv in Hcond as [<- ->].
    destruct (Qle_bool p_value (alpha self)) eqn:Hle.
    + apply bind_inv in Hrun as (i & w3 & Hi & Hrun).
      apply lift_inv in Hi as [Hi ->].
      rewrite (np_argmax_ok _ Hne) in Hi. inversion Hi; subst i.
      apply ret_inv in Hrun as [Hst ->]. inversion Hst; subst.
      repeat split; try assumption. right. split; [reflexivity|].
      exists p_value. split; [assumption|]. left.
      apply Qle_bool_iff in Hle. repeat split; assumption.
    + apply ret_inv in Hrun as [Hst ->]. inversion Hst; subst.
      repeat split; try assumption. right. split; [reflexivity|].
      exists p_value. split; [assumption|]. right.
      split; [|split; reflexivity].
      apply Qnot_le_lt. intros Hq. apply Qle_bool_iff in Hq. congruence.
  - apply ret_inv in Hcond as [<- ->].
    apply bind_inv in Hrun as (i & w3 & Hi & Hrun).
    apply lift_inv in Hi as [Hi ->].
    rewrite (np_argmax_ok _ Hne) in Hi. inversion Hi; subst i.
    apply ret_inv in Hrun as [Hst ->]. inversion Hst; subst.
    repeat split; try assumption. left. repeat split; reflexivity.
Qed.

(** A round of [predict] that gets its vote counts, has at least two of
    them and (when asked to abstain) a p-value, returns. *)
Lemma predict_body_run bs ia x_i na pr (w w' : world G)
    counts count1 top1 count2 :
  _prediction_counts self x_i None bs w = (Ok counts, w') ->
  np_max counts = Ok count1 ->
  getitem (rev (argsort counts)) 1 = Ok top1 ->
  getitem counts top1 = Ok count2 ->
  (ia = false ->
     predict_body self bs ia x_i (na, pr) w
     = (Ok (na, pr ++ [one_hot (length counts) (argmax_ix counts)]), w')) /\
  (forall p_value, ia = true ->
     binom_test count1 (count1 + count2) (1 # 2) = Ok p_value ->
     predict_body self bs ia x_i (na, pr) w
     = (Ok (if Qle_bool p_value (alpha self)
            then (na, pr ++ [one_hot (length counts) (argmax_ix counts)])
            else (S na, pr ++ [np_zeros (length counts)])), w')).
Proof.
  intros Hc H1 Ht H2.
  assert (Hne : counts <> []).
  { intros ->. discriminate. }
  unfold predict_body.
  rewrite (bind_ok _ _ _ _ _ Hc).
  unfold bind, lift, ret. rewrite H1, Ht, H2.
  split.
  - intros ->. simpl. rewrite (np_argmax_ok _ Hne). reflexivity.
  - intros p_value -> Hp. simpl. rewrite Hp.
    destruct (Qle_bool p_value (alpha self)).
    + rewrite (np_argmax_ok _ Hne). reflexivity.
    + reflexivity.
Qed.
End Predict.

Lemma insert_by_perm v i l : insert_by v i l ≡ₚ i :: l.
Proof.
  induction l as [|j l IH]; simpl; [reflexivity|].
  destruct (Qltb _ _); [reflexivity|].
  rewrite IH. apply Permutation_swap.
Qed.

Lemma argsort_perm v : argsort v ≡ₚ seq 0 (length v).
Proof.
  unfold argsort.
  assert (Hgen : forall l acc,
    fold_left (fun acc i => insert_by v i acc) l acc ≡ₚ l ++ acc).
  { induction l as [|i l IH]; intros acc; simpl; [reflexivity|].
    rewrite IH, insert_by_perm. symmetry. apply Permutation_middle. }
  rewrite Hgen, app_nil_r. reflexivity.
Qed.

Lemma np_max_elem (v : list Q) c : np_max v = Ok c -> c ∈ v.
Proof.
  destruct v as [|a l]; [discriminate|]. simpl. intros Hc.
  inversion Hc as [Hfold]. clear Hc.
  assert (Hgen : forall l a,
    fold_left (fun m b => if Qltb m b then b else m) l a ∈ a :: l).
  { clear. induction l as [|b l IH]; intros a; simpl; [left|].
    destruct (Qltb a b).
    - right. apply IH.
    - specialize (IH a). apply elem_of_cons in IH as [->|Hin].
      + left.
      + right. right. exact Hin. }
  apply Hgen.
Qed.

Lemma getitem_elem {A} (l : list A) i a : getitem l i = Ok a -> a ∈ l.
Proof.
  unfold getitem. destruct (l !! i) as [b|] eqn:Hb; [|discriminate].
  intros Ha. inversion Ha; subst. eapply list_elem_of_lookup_2. exact Hb.
Qed.

Lemma insert_by_sorted v i l :
  StronglySorted (fun a b => default 0 (v !! a) <= default 0 (v !! b)) l ->
  StronglySorted (fun a b => default 0 (v !! a) <= default 0 (v !! b))
    (insert_by v i l).
Proof.
  induction 1 as [|j l Hl IH Hj]; simpl.
  - constructor; constructor.
  - destruct (Qltb (default 0 (v !! i)) (default 0 (v !! j))) eqn:Hcmp.
    + apply Qltb_lt in Hcmp. constructor; [constructor; assumption|].
      constructor; [apply Qlt_le_weak; exact Hcmp|].
      eapply Forall_impl; [exact Hj|]. intros k Hk. simpl in Hk.
      apply Qle_trans with (default 0 (v !! j));
        [apply Qlt_le_weak; exact Hcmp | exact Hk].
    + apply Qltb_ge in Hcmp. constructor; [exact IH|].
      rewrite insert_by_perm. constructor; assumption.
Qed.

(** [argsort] lists the indices by ascending value. *)
Lemma argsort_sorted v :
  StronglySorted (fun a b => default 0 (v !! a) <= default 0 (v !! b))
    (argsort v).
Proof.
  unfold argsort.
  assert (Hgen : forall l acc,
    StronglySorted (fun a b => default 0 (v !! a) <= default 0 (v !! b)) acc ->
    StronglySorted (fun a b => default 0 (v !! a) <= default 0 (v !! b))
      (fold_left (fun acc i => insert_by v i acc) l acc)).
  { induction l as [|i l IH]; intros acc Hacc; simpl; [exact Hacc|].
    apply IH, insert_by_sorted, Hacc. }
  apply Hgen. constructor.
Qed.

Lemma StronglySorted_lookup {A} (R : A -> A -> Prop) l :
  StronglySorted R l ->
  forall i j a b, (i < j)%nat -> l !! i = Some a -> l !! j = Some b -> R a b.
Proof.
  induction 1 as [|x l Hl IH Hx]; intros i j a b Hij Ha Hb; [discriminate|].
  destruct j as [|j]; [lia|]. simpl in Hb.
  destruct i as [|i]; simpl in Ha.
  - inversion Ha; subst. rewrite Forall_forall in Hx. apply Hx.
    eapply list_elem_of_lookup_2. exact Hb.
  - apply (IH i j); [lia | exact Ha | exact Hb].
Qed.

Lemma np_max_upper (v : list Q) c :
  np_max v = Ok c -> forall u, u ∈ v -> u <= c.
Proof.
  destruct v as [|a l]; [discriminate|]. simpl. intros Hc.
  inversion Hc as [Hfold]. clear Hc.
  assert (Hgen : forall l a u,
    u ∈ a :: l ->
    u <= fold_left (fun m b => if Qltb m b then b else m) l a).
  { clear. induction l as [|b l IH]; intros a u Hu; simpl.
    - apply elem_of_cons in Hu as [->|Hu]; [apply Qle_refl|].
      inversion Hu.
    - destruct (Qltb a b) eqn:Hcmp.
      + apply Qltb_lt in Hcmp.
        apply elem_of_cons in Hu as [->|Hu].
        * apply Qle_trans with b; [apply Qlt_le_weak; exact Hcmp|].
          apply IH. left.
        * apply IH. exact Hu.
      + apply Qltb_ge in Hcmp.
        apply elem_of_cons in Hu as [->|Hu]; [apply IH; left|].
        apply elem_of_cons in Hu as [->|Hu].
        * apply Qle_trans with a; [exact Hcmp|]. apply IH. left.
        * apply IH. right. exact Hu. }
  intros u Hu. apply Hgen. exact Hu.
Qed.

(** [count1] and [count2] of [predict] are the largest and the second
    largest vote count: some class [top0] holds [count1], no count is above
    it, and no count of another class is above [count2 = counts[top[1]]]. *)
Lemma top_two_spec (counts : list Q) count1 top1 count2 :
  np_max counts = Ok count1 ->
  getitem (rev (argsort counts)) 1 = Ok top1 ->
  getitem counts top1 = Ok count2 ->
  exists top0 c0,
    counts !! top0 = Some c0 /\ c0 == count1 /\ top0 <> top1 /\
    (forall j c, counts !! j = Some c -> c <= count1) /\
    (forall j c, j <> top0 -> counts !! j = Some c -> c <= count2).
Proof.
  intros Hmax Ht H2.
  pose proof (argsort_sorted counts) as Hsorted.
  pose proof (argsort_perm counts) as Hperm.
  pose proof (argsort_length counts) as Hlen.
  set (s := argsort counts) in *.
  unfold getitem in Ht, H2.
  destruct (rev s !! 1%nat) as [t|] eqn:Hrev; [|discriminate].
  inversion Ht; subst t. clear Ht.
  destruct (counts !! top1) as [c2|] eqn:Hc2; [|discriminate].
  inversion H2; subst c2. clear H2.
  rewrite rev_alt in Hrev. change (rev_append s []) with (reverse s) in Hrev.
  apply reverse_lookup_Some in Hrev as [Hs1 Hn].
  destruct (lookup_lt_is_Some_2 s (length s - 1)%nat) as [top0 Hs0]; [lia|].
  assert (Hnodup : NoDup s) by (rewrite Hperm; apply NoDup_seq).
  assert (Hrange : forall j, (j < length counts)%nat ->
            exists p, s !! p = Some j).
  { intros j Hj. apply list_elem_of_lookup_1. rewrite Hperm.
    apply elem_of_seq. lia. }
  assert (Htop0 : (top0 < length counts)%nat).
  { apply list_elem_of_lookup_2 in Hs0. rewrite Hperm in Hs0.
    apply elem_of_seq in Hs0. lia. }
  destruct (lookup_lt_is_Some_2 counts top0 Htop0) as [c0 Hc0].
  assert (Hall : forall j c, counts !! j = Some c -> c <= c0).
  { intros j c Hj. destruct (Hrange j (lookup_lt_Some _ _ _ Hj)) as [p Hp].
    pose proof (lookup_lt_Some _ _ _ Hp) as Hplt.
    destruct (decide (p = length s - 1)%nat) as [->|Hne].
    - rewrite Hs0 in Hp. inversion Hp; subst j.
      rewrite Hc0 in Hj. inversion Hj. apply Qle_refl.
    - pose proof (StronglySorted_lookup _ _ Hsorted p (length s - 1)%nat
                    j top0 ltac:(lia) Hp Hs0) as Hle.
      simpl in Hle. rewrite Hj, Hc0 in Hle. exact Hle. }
  assert (Heq : c0 == count1).
  { apply Qle_antisym.
    - apply (np_max_upper _ _ Hmax). eapply list_elem_of_lookup_2. exact Hc0.
    - apply np_max_elem in Hmax. apply list_elem_of_lookup_1 in Hmax as [j Hj].
      apply (Hall j). exact Hj. }
  exists top0, c0. split; [exact Hc0|]. split; [exact Heq|].
  split.
  { intros ->. pose proof (NoDup_lookup _ _ _ _ Hnodup Hs0 Hs1). lia. }
  split.
  { intros j c Hj. rewrite <- Heq. apply (Hall j). exact Hj. }
  intros j c Hne Hj.
  destruct (Hrange j (lookup_lt_Some _ _ _ Hj)) as [p Hp].
  pose proof (lookup_lt_Some _ _ _ Hp) as Hplt.
  destruct (decide (p = length s - 1)%nat) as [->|Hp0].
  { rewrite Hs0 in Hp. inversion Hp. congruence. }
  destruct (decide (p = length s - 2)%nat) as [->|Hp1].
  - assert (j = top1) by (rewrite Hs1 in Hp; inversion Hp; reflexivity).
    subst j. rewrite Hc2 in Hj. inversion Hj. apply Qle_refl.
  - pose proof (StronglySorted_lookup _ _ Hsorted p (length s - 2)%nat
                  j top1 ltac:(lia) Hp Hs1) as Hle.
    simpl in Hle. rewrite Hj, Hc2 in Hle. exact Hle.
Qed.

(** With two classes or more, [top[1]] exists and indexes the counts. *)
Lemma top1_exists (counts : list Q) :
  (2 <= length counts)%nat ->
  exists top1 count2,
    getitem (rev (argsort counts)) 1 = Ok top1 /\
    getitem counts top1 = Ok count2.
Proof.
  intros Hlen. unfold getitem.
  destruct (rev (argsort counts) !! 1%nat) as [top1|] eqn:Ht.
  - assert (Hin : top1 ∈ seq 0 (length counts)).
    { rewrite <- argsort_perm. apply (list_elem_of_lookup_2 _ 1%nat) in Ht.
      apply list_elem_of_In. apply in_rev. apply list_elem_of_In. exact Ht. }
    apply elem_of_seq in Hin.
    destruct (lookup_lt_is_Some_2 counts top1) as [c2 Hc2]; [lia|].
    exists top1, c2. rewrite Hc2. split; reflexivity.
  - apply lookup_ge_None in Ht.
    rewrite length_rev, argsort_length in Ht. lia.
Qed.

Lemma np_max_exists (counts : list Q) :
  counts <> [] -> exists count1, np_max counts = Ok count1.
Proof.
  destruct counts as [|a l]; [congruence|]. intros _. eexists. reflexivity.
Qed.

Section PredictRuns.
Context {G : Type} {RS : RandomSource G} {CL : Classifier} {ST : Statistics}.
Variable self : RandomizedSmoothingMixin.

(** Every successful round appends exactly one prediction. *)
Lemma predict_body_length bs ia x_i st (w w' : world G) st' :
  predict_body self bs ia x_i st w = (Ok st', w') ->
  length (snd st') = S (length (snd st)).
Proof.
  destruct st as [na pr], st' as [na' pr']. intros Hrun.
  apply predict_body_inv in Hrun
    as (counts & c1 & t1 & c2 & _ & _ & _ & _ & Hcase).
  simpl.
  destruct Hcase as [(_ & _ & ->) | (_ & pv & _ & [(_ & _ & ->) | (_ & _ & ->)])];
    rewrite length_app; simpl; lia.
Qed.

Lemma for_in_predict_length bs ia xs : forall st (w w' : world G) st',
  for_in (predict_body self bs ia) xs st w = (Ok st', w') ->
  length (snd st') = (length (snd st) + length xs)%nat.
Proof.
  induction xs as [|x_i xs IH]; intros st w w' st' Hrun.
  - apply ret_inv in Hrun as [<- _]. simpl. lia.
  - simpl in Hrun. apply bind_inv in Hrun as (st1 & w1 & Hb & Hrun).
    apply IH in Hrun. apply predict_body_length in Hb. simpl. lia.
Qed.

Lemma iter_inv x (w w' : world G) xs :
  iter x w = (Ok xs, w') ->
  w' = w /\
  exists a, w_heap w !! x = Some a /\
            xs = map (fun i => (x, i)) (seq 0 (fst (shape a))).
Proof.
  unfold iter, len, read, bind, ret.
  destruct (w_heap w !! x) as [a|]; intros Hrun; inversion Hrun; subst.
  split; [reflexivity|]. exists a. split; reflexivity.
Qed.
End PredictRuns.

(** ** What a call leaves untouched *)

Section Frame.
Context {G : Type} {RS : RandomSource G} {CL : Classifier} {ST : Statistics}.
Variable self : RandomizedSmoothingMixin.

Lemma keeps_refl l a (w : world G) : keeps l a w w.
Proof. intros Hl. exact Hl. Qed.

Lemma keeps_trans l a (w1 w2 w3 : world G) :
  keeps l a w1 w2 -> keeps l a w2 w3 -> keeps l a w1 w3.
Proof. intros H12 H23 Hl. apply H23, H12, Hl. Qed.

Lemma prediction_counts_stdout x n bs (w : world G) :
  w_stdout (snd (_prediction_counts self x n bs w)) = w_stdout w.
Proof.
  unfold _prediction_counts, bind.
  destruct (noisy_samples_store self x n w) as (k & _ & Hout & _).
  destruct (_noisy_samples self x n w) as [[x_new|e] w1]; simpl in *;
    [|exact Hout].
  unfold call_predict_model.
  destruct (_predict_model (w_heap w1) x_new bs) as [[m|e] h']; simpl;
    [|exact Hout].
  unfold lift, ret. destruct (np_argmax_rows m); simpl; exact Hout.
Qed.

Lemma prediction_counts_keeps x n bs (w : world G) l a :
  writes_only_batch CL ->
  keeps l a w (snd (_prediction_counts self x n bs w)).
Proof.
  intros Hframe Hl. unfold _prediction_counts, bind.
  destruct (noisy_samples_store self x n w) as (k & Hheap & _ & Hok).
  pose proof (lookup_lt_Some _ _ _ Hl) as Hlt.
  destruct (_noisy_samples self x n w) as [[x_new|e] w1]; simpl in *.
  - destruct (Hok x_new eq_refl) as (Hge & _).
    assert (Hl1 : w_heap w1 !! l = Some a).
    { rewrite Hheap. rewrite lookup_app_l by exact Hlt. exact Hl. }
    assert (Hl2 : snd (_predict_model (w_heap w1) x_new bs) !! l = Some a).
    { rewrite Hframe; [exact Hl1 | lia |].
      rewrite Hheap, length_app. lia. }
    unfold call_predict_model.
    destruct (_predict_model (w_heap w1) x_new bs) as [[m|e] h']; simpl in *;
      [|exact Hl2].
    unfold lift, ret. destruct (np_argmax_rows m); simpl; exact Hl2.
  - rewrite Hheap. rewrite lookup_app_l by exact Hlt. exact Hl.
Qed.

(** The world after a run of pure steps following a first call. *)
Lemma bind_pure_world {A B} (m : M G A) (k : A -> M G B) (w : world G) :
  (forall a w1, snd (k a w1) = w1) ->
  snd (bind m k w) = snd (m w).
Proof.
  intros Hk. unfold bind. destruct (m w) as [[a|e] w1]; simpl;
    [apply Hk | reflexivity].
Qed.

Lemma predict_body_world bs ia x_i st (w : world G) :
  snd (predict_body self bs ia x_i st w)
  = snd (_prediction_counts self x_i None bs w).
Proof.
  destruct st as [na pr]. unfold predict_body.
  apply bind_pure_world. intros counts w1.
  unfold bind, lift, ret.
  destruct (np_max counts) as [count1|]; simpl; [|reflexivity].
  destruct (getitem (rev (argsort counts)) 1) as [top1|]; simpl;
    [|reflexivity].
  destruct (getitem counts top1) as [count2|]; simpl; [|reflexivity].
  destruct ia; simpl.
  - destruct (binom_test _ _ _) as [pv|]; simpl; [|reflexivity].
    destruct (Qle_bool pv (alpha self)); simpl; [|reflexivity].
    destruct (np_argmax counts); reflexivity.
  - destruct (np_argmax counts); reflexivity.
Qed.

Lemma certify_body_world n x_i st (w : world G) :
  snd (certify_body self n x_i st w)
  = match _prediction_counts self x_i None 128 w with
    | (Ok counts_pred, w1) =>
        match np_argmax counts_pred with
        | Ok _ => snd (_prediction_counts self x_i (Some n) 128 w1)
        | Raise _ => w1
        end
    | (Raise _, w1) => w1
    end.
Proof.
  destruct st as [prediction radius]. unfold certify_body, bind, lift, ret.
  destruct (_prediction_counts self x_i None 128 w) as [[cp|e] w1];
    simpl; [|reflexivity].
  destruct (np_argmax cp) as [cs|e]; simpl; [|reflexivity].
  destruct (_prediction_counts self x_i (Some n) 128 w1) as [[ce|e] w2];
    simpl; [|reflexivity].
  destruct (getitem ce cs); simpl; [|reflexivity].
  destruct (Qltb _ _); reflexivity.
Qed.

Lemma predict_body_keeps bs ia x_i st (w : world G) l a :
  writes_only_batch CL ->
  keeps l a w (snd (predict_body self bs ia x_i st w)).
Proof.
  intros Hframe. rewrite predict_body_world.
  apply prediction_counts_keeps. exact Hframe.
Qed.

Lemma certify_body_keeps n x_i st (w : world G) l a :
  writes_only_batch CL ->
  keeps l a w (snd (certify_body self n x_i st w)).
Proof.
  intros Hframe. rewrite certify_body_world.
  pose proof (prediction_counts_keeps x_i None 128 w l a Hframe) as H1.
  destruct (_prediction_counts self x_i None 128 w) as [[cp|e] w1];
    simpl in *; [|exact H1].
  destruct (np_argmax cp); [|exact H1].
  eapply keeps_trans; [exact H1|].
  apply prediction_counts_keeps. exact Hframe.
Qed.

Lemma iter_world x (w : world G) : snd (iter x w) = w.
Proof.
  unfold iter, len, read, bind, ret.
  destruct (w_heap w !! x); reflexivity.
Qed.

Lemma predict_loop_keeps x bs ia (w : world G) l a :
  writes_only_batch CL ->
  keeps l a w (snd (predict_loop self x bs ia w)).
Proof.
  intros Hframe. unfold predict_loop, bind.
  pose proof (iter_world x w) as Hw.
  destruct (iter x w) as [[xs|e] w1]; simpl in Hw; subst w1;
    [|apply keeps_refl].
  apply (for_in_world _ (keeps (G := G) l a) (fun _ => True)).
  - apply keeps_refl.
  - apply keeps_trans.
  - intros x_i st w0 _. apply predict_body_keeps. exact Hframe.
  - apply Forall_forall. intros; exact I.
Qed.

Lemma predict_keeps x bs ia (w : world G) l a :
  writes_only_batch CL ->
  keeps l a w (snd (predict self x bs ia w)).
Proof.
  intros Hframe. unfold predict, bind.
  pose proof (predict_loop_keeps x bs ia w l a Hframe) as Hloop.
  destruct (predict_loop self x bs ia w) as [[st|e] w1]; simpl in *;
    [|exact Hloop].
  destruct (0 <? fst st)%nat; simpl; exact Hloop.
Qed.

Lemma certify_keeps x n (w : world G) l a :
  writes_only_batch CL ->
  keeps l a w (snd (certify self x n w)).
Proof.
  intros Hframe. unfold certify, bind.
  pose proof (iter_world x w) as Hw.
  destruct (iter x w) as [[xs|e] w1]; simpl in Hw; subst w1;
    [|apply keeps_refl].
  apply (for_in_world _ (keeps (G := G) l a) (fun _ => True)).
  - apply keeps_refl.
  - apply keeps_trans.
  - intros x_i st w0 _. apply certify_body_keeps. exact Hframe.
  - apply Forall_forall. intros; exact I.
Qed.
End Frame.

(** C10. Neither [predict] nor [certify] changes an array the caller holds,
    the input [x] among them, whatever the outcome of the call: the samples
    of [_noisy_samples] are new arrays appended to the store, and the
    classifier is handed only those. The classifier itself is assumed to
    write to no array but the batch it is handed. *)
Theorem predict_certify_leave_input_unchanged
    {G : Type} {RS : RandomSource G} {CL : Classifier} {ST : Statistics}
    (self : RandomizedSmoothingMixin) (x : loc) (batch_size n : Z)
    (is_abstain : bool) (w : world G) (l : loc) (a : ndarray) :
  writes_only_batch CL ->
  w_heap w !! l = Some a ->
  w_heap (snd (predict self x batch_size is_abstain w)) !! l = Some a /\
  w_heap (snd (certify self x n w)) !! l = Some a /\
  (forall x_i m w0 x_new w1,
     _noisy_samples self x_i m w0 = (Ok x_new, w1) ->
     (length (w_heap w0) <= x_new)%nat /\
     exists k, w_heap w1 = w_heap w0 ++ k).
Proof.
  intros Hframe Hl. split; [|split].
  - exact (predict_keeps self x batch_size is_abstain w l a Hframe Hl).
  - exact (certify_keeps self x n w l a Hframe Hl).
  - intros x_i m w0 x_new w1 Hs.
    destruct (noisy_samples_store self x_i m w0) as (k & Hheap & _ & Hok).
    rewrite Hs in Hheap, Hok. simpl in Hheap, Hok.
    split; [apply (Hok x_new eq_refl) | exists k; exact Hheap].
Qed.

Section Outputs.
Context {G : Type} {RS : RandomSource G} {CL : Classifier} {ST : Statistics}.
Variable self : RandomizedSmoothingMixin.

(** When every successful round appends one item that is related to the
    input of the round, the items appended by the loop are related to the
    inputs, in order. *)
Lemma for_in_appends {S T : Type} (body : view -> S -> M G S)
    (items : S -> list T) (P : view -> T -> Prop) :
  (forall x_i st (w w' : world G) st',
     body x_i st w = (Ok st', w') ->
     exists t, items st' = items st ++ [t] /\ P x_i t) ->
  forall xs st (w w' : world G) st',
    for_in body xs st w = (Ok st', w') ->
    exists ts, items st' = items st ++ ts /\ Forall2 P xs ts.
Proof.
  intros Hbody xs. induction xs as [|x_i xs IH]; intros st w w' st' Hrun.
  - apply ret_inv in Hrun as [<- _]. exists []. rewrite app_nil_r.
    split; [reflexivity | constructor].
  - simpl in Hrun. apply bind_inv in Hrun as (st1 & w1 & Hb & Hrun).
    apply Hbody in Hb as (t & Ht & HP).
    apply IH in Hrun as (ts & Hts & HF).
    exists (t :: ts). split; [|constructor; assumption].
    rewrite Hts, Ht, <- app_assoc. reflexivity.
Qed.

Lemma predict_loop_stdout x bs ia (w : world G) :
  w_stdout (snd (predict_loop self x bs ia w)) = w_stdout w.
Proof.
  unfold predict_loop, bind.
  pose proof (iter_world x w) as Hw.
  destruct (iter x w) as [[xs|e] w1]; simpl in Hw; subst w1; [|reflexivity].
  apply (for_in_world _ (fun w1 w2 => w_stdout w2 = w_stdout w1)
           (fun _ => True)).
  - reflexivity.
  - intros w1 w2 w3 H12 H23. congruence.
  - intros x_i st w0 _. rewrite predict_body_world.
    apply prediction_counts_stdout.
  - apply Forall_forall. intros; exact I.
Qed.

(** What [predict] adds to the loop: the report. *)
Lemma predict_inv x bs ia (w w' : world G) preds :
  predict self x bs ia w = (Ok preds, w') ->
  exists n_abstained w1,
    predict_loop self x bs ia w = (Ok (n_abstained, preds), w1) /\
    w_heap w' = w_heap w1 /\
    w_stdout w' = w_stdout w ++
      (if (0 <? n_abstained)%nat then [Abstained n_abstained] else []).
Proof.
  unfold predict. intros Hrun.
  apply bind_inv in Hrun as ([na pr] & w1 & Hloop & Hrun).
  pose proof (predict_loop_stdout x bs ia w) as Hout.
  rewrite Hloop in Hout. simpl in Hout, Hrun.
  exists na, w1.
  apply bind_inv in Hrun as (u & w2 & Hprint & Hrun).
  apply ret_inv in Hrun as [<- ->].
  split; [exact Hloop|].
  destruct (0 <? na)%nat.
  - unfold print in Hprint. inversion Hprint; subst. simpl.
    rewrite Hout. split; reflexivity.
  - apply ret_inv in Hprint as [_ ->].
    rewrite app_nil_r. split; [reflexivity | exact Hout].
Qed.
End Outputs.

Section Decisions.
Context {G : Type} {RS : RandomSource G} {CL : Classifier} {ST : Statistics}.
Variable self : RandomizedSmoothingMixin.

Lemma voted_nonempty bs x_i counts c1 c2 :
  voted self bs x_i counts c1 c2 -> counts <> [].
Proof. intros (w0 & w1 & t1 & _ & Hmax & _) ->. discriminate. Qed.

Lemma is_one_hot_argmax counts :
  counts <> [] -> is_one_hot (one_hot (length counts) (argmax_ix counts)).
Proof.
  intros Hne. exists (argmax_ix counts). rewrite one_hot_length.
  split; [apply argmax_ix_lt; exact Hne | reflexivity].
Qed.

Lemma predict_body_appends bs ia x_i st (w w' : world G) st' :
  predict_body self bs ia x_i st w = (Ok st', w') ->
  exists v, snd st' = snd st ++ [v] /\
    (if ia then decided_by_test self bs x_i v else decided_without_test self bs x_i v) /\
    fst st' = (fst st + (if abstained v then 1 else 0))%nat /\
    (is_one_hot v \/ is_all_zero v) /\
    (ia = false -> is_one_hot v).
Proof.
  destruct st as [na pr], st' as [na' pr']. intros Hrun.
  apply predict_body_inv in Hrun
    as (counts & c1 & t1 & c2 & Hc & Hmax & Ht & H2 & Hcase).
  assert (Hv : voted self bs x_i counts c1 c2).
  { exists w, w', t1. repeat split; assumption. }
  pose proof (voted_nonempty _ _ _ _ _ Hv) as Hne.
  pose proof (argmax_ix_lt counts Hne) as Hlt.
  simpl.
  destruct Hcase as [(-> & -> & ->) | (-> & pv & Hp & [(Hle & -> & ->) | (Hgt & -> & ->)])].
  - exists (one_hot (length counts) (argmax_ix counts)).
    rewrite (abstained_one_hot _ _ Hlt).
    split; [reflexivity|]. split.
    { exists counts, c1, c2.
      split; [exact Hv|]. split; [apply np_argmax_ok; exact Hne | reflexivity]. }
    split; [lia|].
    split; [left|intros _]; apply is_one_hot_argmax; exact Hne.
  - exists (one_hot (length counts) (argmax_ix counts)).
    rewrite (abstained_one_hot _ _ Hlt).
    split; [reflexivity|]. split.
    { exists counts, c1, c2, pv.
      split; [exact Hv|]. split; [apply np_argmax_ok; exact Hne|].
      split; [exact Hp|]. split; [tauto|]. split; [contradiction|].
      intros Habs. exfalso. revert Habs. apply one_hot_not_zero. exact Hlt. }
    split; [lia|].
    split; [left; apply is_one_hot_argmax; exact Hne | discriminate].
  - exists (np_zeros (length counts)).
    rewrite abstained_zeros.
    split; [reflexivity|]. split.
    { exists counts, c1, c2, pv.
      split; [exact Hv|]. split; [apply np_argmax_ok; exact Hne|].
      assert (Hnle : ~ pv <= alpha self) by (apply Qlt_not_le; exact Hgt).
      split; [exact Hp|]. split; [|tauto].
      split; [contradiction|].
      intros Habs. exfalso. symmetry in Habs. revert Habs.
      apply one_hot_not_zero. exact Hlt. }
    split; [lia|].
    split; [right | discriminate].
    unfold is_all_zero, np_zeros. rewrite length_replicate. reflexivity.
Qed.

(** The state of the loop of [predict] after a run: the predictions are
    decided input by input, and the counter is the number of abstained
    ones. *)
Lemma predict_loop_spec x bs ia (w w' : world G) na preds :
  predict_loop self x bs ia w = (Ok (na, preds), w') ->
  exists xs,
    iter x w = (Ok xs, w) /\
    Forall2 (fun x_i v =>
               (if ia then decided_by_test self bs x_i v
                else decided_without_test self bs x_i v) /\
               (is_one_hot v \/ is_all_zero v) /\
               (ia = false -> is_one_hot v /\ abstained v = false))
      xs preds /\
    na = count_abstained preds.
Proof.
  unfold predict_loop. intros Hrun.
  apply bind_inv in Hrun as (xs & w1 & Hiter & Hrun).
  pose proof (iter_world x w) as Hw. rewrite Hiter in Hw. simpl in Hw.
  subst w1. exists xs. split; [exact Hiter|].
  split.
  - pose proof (for_in_appends (predict_body self bs ia) snd
      (fun x_i v =>
         (if ia then decided_by_test self bs x_i v
          else decided_without_test self bs x_i v) /\
         (is_one_hot v \/ is_all_zero v) /\
         (ia = false -> is_one_hot v /\ abstained v = false))) as Happ.
    destruct (Happ) with (xs := xs) (st := (0%nat, @nil (list Q)))
      (w := w) (w' := w') (st' := (na, preds)) as (ts & Hts & HF).
    + intros x_i st w0 w0' st' Hb.
      apply predict_body_appends in Hb as (v & Hv & Hd & _ & Hshape & Hoh).
      exists v. split; [exact Hv|]. split; [exact Hd|].
      split; [exact Hshape|].
      intros Hia. specialize (Hoh Hia). split; [exact Hoh|].
      destruct Hoh as (i & Hi & Heq). rewrite Heq.
      apply abstained_one_hot. exact Hi.
    + exact Hrun.
    + simpl in Hts. subst ts. exact HF.
  - apply (for_in_invariant (predict_body self bs ia)
             (fun st => fst st = count_abstained (snd st)))
      with (st' := (na, preds)) in Hrun; [exact Hrun| |reflexivity].
    intros x_i st w0 st' w0' HI Hb.
    apply predict_body_appends in Hb as (v & Hv & _ & Hna & _).
    rewrite Hna, Hv, count_abstained_app, HI. simpl.
    destruct (abstained v); reflexivity.
Qed.
End Decisions.



(** ** The decision of [certify] *)

Section Certify.
Context {G : Type} {RS : RandomSource G} {CL : Classifier} {ST : Statistics}.
Variable self : RandomizedSmoothingMixin.

Lemma certify_body_inv n x_i st (w w' : world G) st' :
  certify_body self n x_i st w = (Ok st', w') ->
  exists class_select count_class,
    selected self n x_i class_select count_class /\
    (0 <= scale self) /\
    fst st' = fst st ++ [fst (certified_pair self class_select count_class n)] /\
    snd st' = snd st ++ [snd (certified_pair self class_select count_class n)].
Proof.
  destruct st as [pr rad], st' as [pr' rad']. unfold certify_body.
  intros Hrun.
  apply bind_inv in Hrun as (counts_pred & w1 & Hcp & Hrun).
  apply bind_inv in Hrun as (class_select & w2 & Hcs & Hrun).
  apply lift_inv in Hcs as [Hcs ->].
  apply bind_inv in Hrun as (counts_est & w2 & Hce & Hrun).
  apply bind_inv in Hrun as (count_class & w3 & Hcc & Hrun).
  apply lift_inv in Hcc as [Hcc ->].
  exists class_select, count_class. split.
  { exists w, w1, w2, counts_pred, counts_est. repeat split; assumption. }
  split.
  { apply prediction_counts_inv in Hcp as (x_new & w3 & m & idx & Hs & _).
    destruct (noisy_samples_store self x_i None w) as (k & _ & _ & Hok).
    rewrite Hs in Hok. simpl in Hok.
    apply (Hok x_new eq_refl). }
  unfold certified_pair. simpl.
  destruct (Qltb _ _); apply ret_inv in Hrun as [Hst _];
    inversion Hst; subst; split; reflexivity.
Qed.

Lemma for_in_certify n xs : forall st (w w' : world G) st',
  for_in (certify_body self n) xs st w = (Ok st', w') ->
  exists ts,
    fst st' = fst st ++ map fst ts /\
    snd st' = snd st ++ map snd ts /\
    Forall2 (fun x_i cr =>
               exists class_select count_class,
                 selected self n x_i class_select count_class /\
                 (0 <= scale self) /\
                 cr = certified_pair self class_select count_class n)
      xs ts.
Proof.
  induction xs as [|x_i xs IH]; intros st w w' st' Hrun.
  - apply ret_inv in Hrun as [<- _]. exists []. simpl.
    rewrite !app_nil_r. repeat split. constructor.
  - simpl in Hrun. apply bind_inv in Hrun as (st1 & w1 & Hb & Hrun).
    apply certify_body_inv in Hb as (cs & cc & Hsel & Hsc & Hp & Hr).
    apply IH in Hrun as (ts & Hps & Hrs & HF).
    exists (certified_pair self cs cc n :: ts). simpl.
    rewrite Hps, Hrs, Hp, Hr, <- !app_assoc. simpl.
    repeat split. constructor; [|exact HF].
    exists cs, cc. repeat split; assumption.
Qed.

Lemma certify_inv x n (w w' : world G) preds radii :
  certify self x n w = (Ok (preds, radii), w') ->
  exists xs ts,
    iter x w = (Ok xs, w) /\
    preds = map fst ts /\ radii = map snd ts /\
    Forall2 (fun x_i cr =>
               exists class_select count_class,
                 selected self n x_i class_select count_class /\
                 (0 <= scale self) /\
                 cr = certified_pair self class_select count_class n)
      xs ts.
Proof.
  unfold certify. intros Hrun.
  apply bind_inv in Hrun as (xs & w1 & Hiter & Hrun).
  pose proof (iter_world x w) as Hw. rewrite Hiter in Hw. simpl in Hw.
  subst w1.
  apply for_in_certify in Hrun as (ts & Hp & Hr & HF).
  exists xs, ts. repeat split; assumption.
Qed.


End Certify.




(** ** Binomial coefficients and probabilities *)

Lemma pascal_row_succ n :
  pascal_row (S n)
  = zip_with Z.add (0%Z :: pascal_row n) (pascal_row n ++ [0%Z]).
Proof. reflexivity. Qed.

Lemma pascal_row_length n : length (pascal_row n) = S n.
Proof.
  induction n as [|n IH]; [reflexivity|].
  rewrite pascal_row_succ, length_zip_with, length_app, IH. simpl. lia.
Qed.

Lemma choose_0_r n : choose n 0 = 1%Z.
Proof.
  unfold choose. induction n as [|n IH]; [reflexivity|].
  rewrite pascal_row_succ.
  destruct (pascal_row n) as [|c r] eqn:Hr; [discriminate IH|].
  simpl in *. exact IH.
Qed.

Lemma choose_0_l k : choose 0 (S k) = 0%Z.
Proof. unfold choose. simpl. destruct k; reflexivity. Qed.

Lemma choose_gt n k : (n < k)%nat -> choose n k = 0%Z.
Proof.
  intros Hlt. unfold choose.
  rewrite lookup_ge_None_2; [reflexivity|]. rewrite pascal_row_length. lia.
Qed.

(** Pascal's rule. *)
Lemma choose_succ n k :
  choose (S n) (S k) = (choose n k + choose n (S k))%Z.
Proof.
  unfold choose. rewrite pascal_row_succ, lookup_zip_with. simpl.
  pose proof (pascal_row_length n) as Hlen.
  destruct (pascal_row n !! k) as [a|] eqn:Ha; simpl.
  - destruct (decide (S k < length (pascal_row n))%nat) as [Hk|Hk].
    + rewrite lookup_app_l by exact Hk.
      destruct (lookup_lt_is_Some_2 (pascal_row n) (S k) Hk) as [b Hb].
      rewrite Hb. reflexivity.
    + apply lookup_lt_Some in Ha.
      rewrite lookup_app_r by lia.
      replace (S k - length (pascal_row n))%nat with 0%nat by lia. simpl.
      rewrite (lookup_ge_None_2 (pascal_row n) (S k)) by lia. reflexivity.
  - apply lookup_ge_None in Ha.
    rewrite (lookup_ge_None_2 (pascal_row n) (S k)) by lia. reflexivity.
Qed.

Lemma choose_nonneg n : forall k, (0 <= choose n k)%Z.
Proof.
  induction n as [|n IH]; intros [|k].
  - rewrite choose_0_r. lia.
  - rewrite choose_0_l. lia.
  - rewrite choose_0_r. lia.
  - rewrite choose_succ. pose proof (IH k). pose proof (IH (S k)). lia.
Qed.


Lemma choose_diag n : choose n n = 1%Z.
Proof.
  induction n as [|n IH]; [reflexivity|].
  rewrite choose_succ, IH, (choose_gt n (S n)) by lia. reflexivity.
Qed.

(** [choose n k] is [n! / (k! (n-k)!)]. *)
Lemma choose_factorial n : forall k,
  (k <= n)%nat ->
  (choose n k * Z.of_nat (fact k) * Z.of_nat (fact (n - k))
   = Z.of_nat (fact n))%Z.
Proof.
  induction n as [|n IH]; intros k Hk.
  - replace k with 0%nat by lia. reflexivity.
  - destruct k as [|k].
    + rewrite choose_0_r, Nat.sub_0_r. simpl fact at 1. lia.
    + destruct (decide (k = n)) as [->|Hne].
      * rewrite choose_diag, Nat.sub_diag. simpl fact at 2. lia.
      * rewrite choose_succ. change (S n - S k)%nat with (n - k)%nat.
        pose proof (IH k ltac:(lia)) as H1.
        pose proof (IH (S k) ltac:(lia)) as H2.
        replace (n - k)%nat with (S (n - S k)) in * by lia.
        change (fact (S k)) with (S k * fact k)%nat in *.
        change (fact (S (n - S k))) with (S (n - S k) * fact (n - S k))%nat in *.
        change (fact (S n)) with (S n * fact n)%nat.
        rewrite !Nat2Z.inj_mul in *.
        replace (Z.of_nat (S n))
          with (Z.of_nat (S k) + Z.of_nat (S (n - S k)))%Z by lia.
        transitivity
          (Z.of_nat (S k)
           * (choose n k * Z.of_nat (fact k)
              * (Z.of_nat (S (n - S k)) * Z.of_nat (fact (n - S k))))
           + Z.of_nat (S (n - S k))
             * (choose n (S k) * (Z.of_nat (S k) * Z.of_nat (fact k))
                * Z.of_nat (fact (n - S k))))%Z;
          [ring | rewrite H1, H2; ring].
Qed.

(** Symmetry of the binomial coefficients. *)
Lemma choose_sym n : forall k, (k <= n)%nat -> choose n (n - k) = choose n k.
Proof.
  induction n as [|n IH]; intros k Hk.
  - replace k with 0%nat by lia. reflexivity.
  - destruct k as [|k].
    + rewrite Nat.sub_0_r, choose_0_r. apply choose_diag.
    + simpl. destruct (decide (k = n)) as [->|Hne].
      * rewrite Nat.sub_diag, choose_0_r. symmetry. apply choose_diag.
      * replace (n - k)%nat with (S (n - S k)) by lia.
        rewrite !choose_succ.
        rewrite (IH (S k)) by lia.
        replace (S (n - S k)) with (n - k)%nat by lia.
        rewrite (IH k) by lia. lia.
Qed.

(** Below the middle the coefficients do not decrease. *)
Lemma choose_step_up n : forall k,
  (2 * k + 1 <= n)%nat -> (choose n k <= choose n (S k))%Z.
Proof.
  induction n as [|n IH]; intros k Hk; [lia|].
  destruct k as [|k].
  - rewrite choose_0_r, choose_succ, choose_0_r.
    pose proof (choose_nonneg n 1). lia.
  - rewrite !choose_succ.
    destruct (decide (2 * S k + 1 <= n)%nat) as [Hle|Hgt].
    + pose proof (IH k). pose proof (IH (S k)). lia.
    + assert (Hn : n = (2 * S k)%nat) by lia.
      assert (Hsym : choose n (S (S k)) = choose n k).
      { rewrite <- (choose_sym n k) by lia. f_equal. lia. }
      rewrite Hsym. lia.
Qed.

(** The middle coefficient of an even row is the largest. *)
Lemma choose_central m k : (choose (2 * m) k <= choose (2 * m) m)%Z.
Proof.
  assert (Hlow : forall d j, (j + d = m)%nat ->
            (choose (2 * m) j <= choose (2 * m) m)%Z).
  { induction d as [|d IH]; intros j Hj.
    - replace j with m by lia. lia.
    - etransitivity; [apply choose_step_up; lia|]. apply IH. lia. }
  destruct (decide (k <= m)%nat) as [Hk|Hk].
  - apply (Hlow (m - k)%nat). lia.
  - destruct (decide (k <= 2 * m)%nat) as [Hk2|Hk2].
    + rewrite <- (choose_sym (2 * m) k) by exact Hk2.
      apply (Hlow (m - (2 * m - k))%nat). lia.
    + rewrite choose_gt by lia. apply choose_nonneg.
Qed.

Lemma Qpow_nonneg q k : 0 <= q -> 0 <= Qpow q k.
Proof.
  intros Hq. induction k as [|k IH]; simpl; [discriminate|].
  apply Qmult_le_0_compat; assumption.
Qed.

Lemma Qpow_pos q k : 0 < q -> 0 < Qpow q k.
Proof.
  intros Hq. induction k as [|k IH]; simpl; [reflexivity|].
  apply Qmult_lt_0_compat; assumption.
Qed.

Lemma Qpow_add q a b : Qpow q (a + b) == Qpow q a * Qpow q b.
Proof.
  induction a as [|a IH]; simpl; [ring|]. rewrite IH. ring.
Qed.


Lemma binom_pmf_nonneg k n p : 0 <= p <= 1 -> 0 <= binom_pmf k n p.
Proof.
  intros [Hp0 Hp1]. unfold binom_pmf.
  apply Qmult_le_0_compat; [apply Qmult_le_0_compat|].
  - change 0 with (inject_Z 0). rewrite <- Zle_Qle. apply choose_nonneg.
  - apply Qpow_nonneg. exact Hp0.
  - apply Qpow_nonneg. lra.
Qed.


Lemma binom_pmf_gt k n p : (n < k)%nat -> binom_pmf k n p == 0.
Proof.
  intros Hlt. unfold binom_pmf. rewrite (choose_gt n k Hlt).
  change (inject_Z 0) with 0. ring.
Qed.

(** The first trial fails, or it succeeds. *)
Lemma binom_pmf_zero_succ n p :
  binom_pmf 0 (S n) p == (1 - p) * binom_pmf 0 n p.
Proof.
  unfold binom_pmf. rewrite !choose_0_r, !Nat.sub_0_r. simpl. ring.
Qed.

Lemma binom_pmf_succ k n p :
  binom_pmf (S k) (S n) p
  == p * binom_pmf k n p + (1 - p) * binom_pmf (S k) n p.
Proof.
  unfold binom_pmf. rewrite choose_succ, inject_Z_plus.
  change (S n - S k)%nat with (n - k)%nat.
  destruct (decide (S k <= n)%nat) as [Hle|Hgt].
  - replace (n - k)%nat with (S (n - S k)) by lia. simpl. ring.
  - rewrite (choose_gt n (S k)) by lia. change (inject_Z 0) with 0.
    simpl. ring.
Qed.

(** ** Finite sums *)

Lemma sum_from_ext f g a len :
  (forall i, (a <= i < a + len)%nat -> f i == g i) ->
  sum_from f a len == sum_from g a len.
Proof.
  revert a. induction len as [|len IH]; intros a Hfg; simpl; [reflexivity|].
  rewrite (Hfg a) by lia. rewrite (IH (S a)); [reflexivity|].
  intros i Hi. apply Hfg. lia.
Qed.

Lemma sum_from_snoc f a len :
  sum_from f a (S len) == sum_from f a len + f (a + len)%nat.
Proof.
  revert a. induction len as [|len IH]; intros a.
  - simpl. rewrite Nat.add_0_r. ring.
  - change (sum_from f a (S (S len))) with (f a + sum_from f (S a) (S len)).
    rewrite IH. simpl. replace (a + S len)%nat with (S (a + len)) by lia.
    ring.
Qed.

Lemma sum_from_shift f a len :
  sum_from f (S a) len = sum_from (fun i => f (S i)) a len.
Proof.
  revert a. induction len as [|len IH]; intros a; simpl; [reflexivity|].
  rewrite IH. reflexivity.
Qed.

Lemma sum_from_linear f g c d a len :
  sum_from (fun i => c * f i + d * g i) a len
  == c * sum_from f a len + d * sum_from g a len.
Proof.
  revert a. induction len as [|len IH]; intros a; simpl; [ring|].
  rewrite IH. ring.
Qed.

Lemma sum_from_nonneg f a len :
  (forall i, (a <= i < a + len)%nat -> 0 <= f i) -> 0 <= sum_from f a len.
Proof.
  revert a. induction len as [|len IH]; intros a Hf; simpl; [discriminate|].
  assert (0 <= f a) by (apply Hf; lia).
  assert (0 <= sum_from f (S a) len) by (apply IH; intros i Hi; apply Hf; lia).
  lra.
Qed.

(** ** The binomial distribution *)

(** The probabilities of all outcomes add up to 1. *)
Lemma binom_pmf_total n p : sum_from (fun i => binom_pmf i n p) 0 (S n) == 1.
Proof.
  induction n as [|n IH].
  - reflexivity.
  - change (sum_from (fun i => binom_pmf i (S n) p) 0 (S (S n)))
      with (binom_pmf 0 (S n) p
            + sum_from (fun i => binom_pmf i (S n) p) 1 (S n)).
    rewrite sum_from_shift.
    rewrite (sum_from_ext _
               (fun i => p * binom_pmf i n p + (1 - p) * binom_pmf (S i) n p))
      by (intros i _; apply binom_pmf_succ).
    rewrite sum_from_linear, IH, binom_pmf_zero_succ.
    rewrite <- (sum_from_shift (fun i => binom_pmf i n p)).
    rewrite sum_from_snoc, (binom_pmf_gt (1 + n) n) by lia.
    change (sum_from (fun i => binom_pmf i n p) 0 (S n))
      with (binom_pmf 0 n p + sum_from (fun i => binom_pmf i n p) 1 n) in IH.
    transitivity
      (p + (1 - p)
           * (binom_pmf 0 n p + sum_from (fun i => binom_pmf i n p) 1 n));
      [ring | rewrite IH; ring].
Qed.





Lemma binom_sf_nonneg k n p : 0 <= p <= 1 -> 0 <= binom_sf k n p.
Proof.
  intros Hp. unfold binom_sf. apply sum_from_nonneg.
  intros i _. apply binom_pmf_nonneg. exact Hp.
Qed.





Lemma sum_from_zero f a len :
  (forall i, (a <= i < a + len)%nat -> f i == 0) -> sum_from f a len == 0.
Proof.
  revert a. induction len as [|len IH]; intros a Hf; simpl; [reflexivity|].
  rewrite (Hf a) by lia. rewrite IH; [ring|]. intros i Hi. apply Hf. lia.
Qed.


(** ** Clopper-Pearson lower limits *)



(** ** Vote counts are whole numbers *)

Lemma whole_zip_plus (u v : list Q) :
  Forall whole u -> Forall whole v -> Forall whole (zip_with Qplus u v).
Proof.
  intros Hu. revert v. induction Hu as [|a u [ka ->] _ IH]; intros v Hv.
  - constructor.
  - destruct Hv as [|b v [kb ->] Hv]; simpl; constructor.
    + exists (ka + kb)%nat. apply Qnat_plus.
    + apply IH. exact Hv.
Qed.

Lemma whole_zeros c : Forall whole (np_zeros c).
Proof.
  unfold np_zeros. apply Forall_replicate. exists 0%nat. reflexivity.
Qed.

Lemma whole_set_rows rows idx :
  Forall (Forall whole) rows -> Forall (Forall whole) (set_rows rows idx).
Proof.
  unfold set_rows. intros Hrows. revert idx.
  induction Hrows as [|r rows Hr _ IH]; intros [|i idx]; simpl;
    constructor; [|apply IH].
  apply Forall_insert; [exact Hr|]. exists 1%nat. reflexivity.
Qed.

Lemma whole_sum_axis0 c rows :
  Forall (Forall whole) rows -> Forall whole (np_sum_axis0 c rows).
Proof.
  unfold np_sum_axis0. induction 1 as [|r rows Hr _ IH]; simpl.
  - apply whole_zeros.
  - apply whole_zip_plus; assumption.
Qed.

Lemma prediction_counts_whole
    {G : Type} {RS : RandomSource G} {CL : Classifier}
    (self : RandomizedSmoothingMixin) x n bs (w w' : world G) counts :
  _prediction_counts self x n bs w = (Ok counts, w') -> Forall whole counts.
Proof.
  intros Hrun.
  apply prediction_counts_inv in Hrun as (x_new & w1 & m & idx & _ & _ & _ & ->).
  apply whole_sum_axis0, whole_set_rows.
  unfold np_zeros2. apply Forall_replicate, whole_zeros.
Qed.

(** ** The binomial test at equal counts *)

Lemma Qtrunc_Qnat k : Qtrunc (Qnat k) = Z.of_nat k.
Proof.
  unfold Qtrunc, Qnat.
  destruct (Qltb (inject_Z (Z.of_nat k)) 0); [apply Qceiling_Z | apply Qfloor_Z].
Qed.

Lemma binom_test_whole k m p :
  (k <= m)%nat -> 0 <= p <= 1 ->
  binom_test (Qnat k) (Qnat m) p = Ok (two_sided_p_value k m p).
Proof.
  intros Hk [Hp0 Hp1]. unfold binom_test. rewrite !Qtrunc_Qnat.
  destruct (Z.ltb_spec (Z.of_nat m) (Z.of_nat k)) as [Hlt|_]; [lia|].
  assert (H1 : Qltb 1 p = false) by (apply Qltb_ge; exact Hp1).
  assert (H0 : Qltb p 0 = false) by (apply Qltb_ge; exact Hp0).
  rewrite H1, H0, !Nat2Z.id. reflexivity.
Qed.

Lemma binom_pmf_half i n :
  (i <= n)%nat ->
  binom_pmf i n (1 # 2) == inject_Z (choose n i) * Qpow (1 # 2) n.
Proof.
  intros Hi. unfold binom_pmf. change (1 - (1 # 2)) with (1 # 2).
  rewrite <- Qmult_assoc, <- Qpow_add.
  replace (i + (n - i))%nat with n by lia. reflexivity.
Qed.

(** With as many successes as failures, no outcome is less likely than the
    observed one, so the two-sided p-value is 1. *)
Lemma two_sided_p_value_equal_counts k :
  two_sided_p_value k (k + k) (1 # 2) == 1.
Proof.
  unfold two_sided_p_value.
  set (d := binom_pmf k (k + k) (1 # 2)).
  set (rerr := 1 + (1 # 10000000)).
  assert (Hd : 0 <= d).
  { apply binom_pmf_nonneg. split; discriminate. }
  assert (Hall : forall i, (i <= k + k)%nat ->
            binom_pmf i (k + k) (1 # 2) <= d * rerr).
  { intros i Hi. apply Qle_trans with d.
    - unfold d. rewrite !binom_pmf_half by lia.
      apply Qmult_le_compat_r; [|apply Qpow_nonneg; discriminate].
      rewrite <- Zle_Qle. replace (k + k)%nat with (2 * k)%nat by lia.
      apply choose_central.
    - assert (0 <= d * (1 # 10000000))
        by (apply Qmult_le_0_compat; [exact Hd | discriminate]).
      unfold rerr. lra. }
  set (pval := sum_from _ 0 (S (k + k))).
  assert (Hpval : pval == 1).
  { unfold pval. rewrite <- (binom_pmf_total (k + k) (1 # 2)).
    apply sum_from_ext. intros i Hi.
    destruct (Qle_bool _ _) eqn:Hb; [reflexivity|].
    exfalso. assert (Hle : binom_pmf i (k + k) (1 # 2) <= d * rerr)
      by (apply Hall; lia).
    apply Qle_bool_iff in Hle. congruence. }
  destruct (Qltb pval 1) eqn:Hlt; [|reflexivity].
  exact Hpval.
Qed.

(** C6. When the two leading vote counts of an input are equal, the p-value
    of the two-sided binomial test at p = 1/2 is 1, which is above every
    [alpha] below 1, and [predict] with [is_abstain=True] appends the
    all-zero vector and counts an abstention. *)
Theorem predict_abstains_on_equal_counts
    {G : Type} {RS : RandomSource G} {CL : Classifier}
    (self : RandomizedSmoothingMixin) (batch_size : Z) (x_i : view)
    (n_abstained : nat) (prediction : list (list Q)) (w w1 : world G)
    (counts : list Q) (count1 count2 : Q) (top1 : nat) :
  0 < alpha self -> alpha self < 1 ->
  _prediction_counts self x_i None batch_size w = (Ok counts, w1) ->
  np_max counts = Ok count1 ->
  getitem (rev (argsort counts)) 1 = Ok top1 ->
  getitem counts top1 = Ok count2 ->
  count1 == count2 ->
  (exists p_value,
     binom_test count1 (count1 + count2) (1 # 2) = Ok p_value /\
     p_value == 1 /\ ~ p_value <= alpha self) /\
  predict_body self batch_size true x_i (n_abstained, prediction) w
  = (Ok (S n_abstained, prediction ++ [np_zeros (length counts)]), w1).
Proof.
  intros Ha0 Ha1 Hc Hmax Ht H2 Heq.
  pose proof (prediction_counts_whole self _ _ _ _ _ _ Hc) as Hwhole.
  rewrite Forall_forall in Hwhole.
  destruct (Hwhole _ (np_max_elem _ _ Hmax)) as [k1 ->].
  destruct (Hwhole _ (getitem_elem _ _ _ H2)) as [k2 ->].
  assert (Hk : k2 = k1).
  { unfold Qnat in Heq.
    apply (proj1 (inject_Z_injective _ _)) in Heq. lia. }
  subst k2.
  assert (Hp : binom_test (Qnat k1) (Qnat k1 + Qnat k1) (1 # 2)
               = Ok (two_sided_p_value k1 (k1 + k1) (1 # 2))).
  { rewrite Qnat_plus. apply binom_test_whole; [lia|]. split; discriminate. }
  pose proof (two_sided_p_value_equal_counts k1) as Hone.
  assert (Hnle : ~ two_sided_p_value k1 (k1 + k1) (1 # 2) <= alpha self).
  { rewrite Hone. apply Qlt_not_le. exact Ha1. }
  split.
  - eexists. split; [exact Hp|]. split; assumption.
  - destruct (predict_body_run self batch_size true x_i n_abstained prediction
                w w1 counts (Qnat k1) top1 (Qnat k1) Hc Hmax Ht H2)
      as [_ Hrun].
    rewrite (Hrun _ eq_refl Hp).
    destruct (Qle_bool _ _) eqn:Hle; [|reflexivity].
    apply Qle_bool_iff in Hle. contradiction.
Qed.

(** C5, as stated, fails: [__init__] accepts a non-positive sample size, a
    negative scale and an [alpha] above 1. *)
Lemma init_accepts_invalid_configuration :
  __init__ (Ok tt) 0 (Some (-1 # 1)) (Some (2 # 1))
  = Ok (mk_mixin 0 (-1 # 1) (2 # 1)) /\
  ~ (0 < 0)%Z /\ ~ 0 < -1 # 1 /\ ~ 2 # 1 < 1.
Proof.
  split; [reflexivity|]. repeat split; intros Habs; discriminate Habs.
Qed.

(** C5, amended. [__init__] checks none of [sample_size], [scale] and
    [alpha]: once the next initialiser in line has run, it stores the three
    values as they are given, with 0.1 and 0.001 for an omitted [scale] and
    [alpha], and returns; it fails only when that initialiser fails, and
    then with its error. *)
Theorem init_stores_configuration_unchecked
    (sample_size : Z) (scale alpha : option Q) (e : exn) :
  __init__ (Ok tt) sample_size scale alpha
  = Ok (mk_mixin sample_size (default (1 # 10) scale)
          (default (1 # 1000) alpha)) /\
  __init__ (Raise e) sample_size scale alpha = Raise e.
Proof. split; reflexivity. Qed.

(** C9, as stated, fails: [generate] and [set_params] of the placeholder
    return [None]; they do not raise [NotImplementedError]. *)
Lemma auto_attack_returns_none :
  AutoAttack.generate 0%nat None [] = Ok AutoAttack.None_ /\
  AutoAttack.set_params [] = Ok AutoAttack.None_ /\
  AutoAttack.generate 0%nat None [] <> Raise NotImplementedError /\
  AutoAttack.set_params [] <> Raise NotImplementedError.
Proof. repeat split; discriminate. Qed.

(** C9, amended. Invoking [generate] or [set_params] of the AutoAttack
    placeholder completes without an error and returns [None], whatever the
    arguments: no adversarial example is produced and no parameter is set. *)
Theorem auto_attack_operations_do_nothing
    (x : loc) (y : option loc) (kwargs : list (string * Q)) :
  AutoAttack.generate x y kwargs = Ok AutoAttack.None_ /\
  AutoAttack.set_params kwargs = Ok AutoAttack.None_.
Proof. split; reflexivity. Qed.

(** ** Calls that return *)

Section Progress.
Context {G : Type} {RS : RandomSource G} {CL : Classifier} {ST : Statistics}.
Variable self : RandomizedSmoothingMixin.
Variable classes : nat.
Hypothesis Hcontract : well_behaved CL classes.
Hypothesis Hframe : writes_only_batch CL.
Hypothesis Hscale : 0 <= scale self.

(** [_noisy_samples] returns for a readable view, a sample count that is
    not negative and a scale that is not negative. *)
Lemma noisy_samples_returns (x : view) (n : option Z) (w : world G) ax row :
  w_heap w !! fst x = Some ax ->
  data ax !! snd x = Some row ->
  (0 <= samples_requested self n)%Z ->
  exists x_new w1 batch,
    _noisy_samples self x n w = (Ok x_new, w1) /\
    w_heap w1 !! x_new = Some batch /\
    fst (shape batch) = Z.to_nat (samples_requested self n).
Proof.
  intros Hax Hrow Hn.
  destruct (noisy_samples_store self x n w) as (k & Hheap & _ & Hok).
  assert (Hrun : exists x_new w1, _noisy_samples self x n w = (Ok x_new, w1)).
  { clear Hheap Hok k.
    unfold _noisy_samples, np_expand_dims, np_repeat, read_view, np_shape,
      np_random_normal, np_add, read, alloc, bind, ret, raise.
    fold (samples_requested self n).
    destruct w as [h g out]. destruct x as [lx i]. simpl in *.
    rewrite Hax. simpl. rewrite Hrow. simpl.
    destruct (Z.ltb_spec (samples_requested self n) 0) as [Hneg|_]; [lia|].
    simpl. rewrite lookup_app_r by lia. rewrite Nat.sub_diag. simpl.
    assert (Hs : Qltb (scale self) 0 = false) by (apply Qltb_ge; exact Hscale).
    rewrite Hs. simpl.
    destruct (draw_rows (scale self) (Z.to_nat (samples_requested self n))
                (length row) g) as [rows g']. simpl.
    rewrite <- app_assoc. simpl.
    rewrite lookup_app_r by lia. rewrite Nat.sub_diag. simpl.
    rewrite length_app. simpl.
    rewrite lookup_app_r by lia.
    replace (length h + 1 - length h)%nat with 1%nat by lia. simpl.
    eexists. eexists. reflexivity. }
  destruct Hrun as (x_new & w1 & Hrun).
  rewrite Hrun in Hheap, Hok. simpl in Hheap, Hok.
  destruct (Hok x_new eq_refl) as (_ & _ & _ & a & Ha & Hshape).
  exists x_new, w1, a. rewrite Hheap. repeat split; assumption.
Qed.

(** [_prediction_counts] then returns one whole count per class, and the
    array behind the view is as before. *)
Lemma prediction_counts_returns (x : view) (n : option Z) (bs : Z)
    (w : world G) ax row :
  (0 < classes)%nat ->
  w_heap w !! fst x = Some ax ->
  data ax !! snd x = Some row ->
  (0 <= samples_requested self n)%Z ->
  exists counts w',
    _prediction_counts self x n bs w = (Ok counts, w') /\
    length counts = classes /\
    w_heap w' !! fst x = Some ax.
Proof.
  intros Hc Hax Hrow Hn.
  destruct (noisy_samples_returns x n w ax row Hax Hrow Hn)
    as (x_new & w1 & batch & Hs & Hb & _).
  destruct (Hcontract (w_heap w1) x_new bs batch Hb)
    as (m & h' & Hm & Hwf & Hshape).
  assert (Hcall : call_predict_model x_new bs w1
                  = (Ok m, mk_world h' (w_rng w1) (w_stdout w1))).
  { unfold call_predict_model. rewrite Hm. reflexivity. }
  assert (Hcols : (0 < snd (shape m))%nat) by (rewrite Hshape; exact Hc).
  pose proof (prediction_counts_run self x n bs w w1 _ x_new m Hs Hcall
                Hwf Hcols) as Hrun.
  eexists. eexists. split; [exact Hrun|].
  split; [rewrite length_map, length_seq, Hshape; reflexivity|].
  pose proof (prediction_counts_keeps self x n bs w (fst x) ax Hframe Hax)
    as Hkeep.
  rewrite Hrun in Hkeep. exact Hkeep.
Qed.

(** A round of [predict] returns when there are two classes or more. *)
Lemma predict_body_returns bs ia (x_i : view) st (w : world G) ax row :
  (2 <= classes)%nat ->
  (0 <= sample_size self)%Z ->
  w_heap w !! fst x_i = Some ax ->
  data ax !! snd x_i = Some row ->
  exists st' w',
    predict_body self bs ia x_i st w = (Ok st', w') /\
    w_heap w' !! fst x_i = Some ax.
Proof.
  intros Hc Hn Hax Hrow. destruct st as [na pr].
  destruct (prediction_counts_returns x_i None bs w ax row
              ltac:(lia) Hax Hrow Hn) as (counts & w' & Hrun & Hlen & Hkeep).
  assert (Hne : counts <> []) by (intros ->; simpl in Hlen; lia).
  destruct (np_max_exists counts Hne) as [count1 Hmax].
  destruct (top1_exists counts ltac:(lia)) as (top1 & count2 & Ht & H2).
  destruct (predict_body_run self bs ia x_i na pr w w' counts count1 top1
              count2 Hrun Hmax Ht H2) as [Hoff Hon].
  destruct ia.
  - pose proof (prediction_counts_whole self _ _ _ _ _ _ Hrun) as Hwhole.
    rewrite Forall_forall in Hwhole.
    destruct (Hwhole _ (np_max_elem _ _ Hmax)) as [k1 ->].
    destruct (Hwhole _ (getitem_elem _ _ _ H2)) as [k2 ->].
    assert (Hp : binom_test (Qnat k1) (Qnat k1 + Qnat k2) (1 # 2)
                 = Ok (two_sided_p_value k1 (k1 + k2) (1 # 2))).
    { rewrite Qnat_plus. apply binom_test_whole; [lia|]. split; discriminate. }
    eexists. exists w'. split; [apply (Hon _ eq_refl Hp) | exact Hkeep].
  - eexists. exists w'. split; [apply (Hoff eq_refl) | exact Hkeep].
Qed.

Lemma for_in_predict_returns bs ia (x : loc) ax :
  (2 <= classes)%nat ->
  (0 <= sample_size self)%Z ->
  forall (ixs : list nat) st (w : world G),
    Forall (fun i => is_Some (data ax !! i)) ixs ->
    w_heap w !! x = Some ax ->
    exists st' w',
      for_in (predict_body self bs ia) (map (fun i => (x, i)) ixs) st w
      = (Ok st', w').
Proof.
  intros Hc Hn ixs. induction ixs as [|i ixs IH]; intros st w Hrows Hax.
  - eexists. eexists. reflexivity.
  - inversion Hrows as [|? ? [row Hrow] Hrest]; subst.
    destruct (predict_body_returns bs ia (x, i) st w ax row Hc Hn Hax Hrow)
      as (st1 & w1 & Hb & Hkeep).
    destruct (IH st1 w1 Hrest Hkeep) as (st' & w' & Hloop).
    exists st', w'. simpl. rewrite (bind_ok _ _ _ _ _ Hb). exact Hloop.
Qed.

Lemma rows_readable ax :
  wf_ndarray ax ->
  Forall (fun i => is_Some (data ax !! i)) (seq 0 (fst (shape ax))).
Proof.
  intros [Hlen _]. apply Forall_forall. intros i Hi.
  apply elem_of_seq in Hi. apply lookup_lt_is_Some_2. lia.
Qed.

(** [predict] returns, with one prediction per input, for every classifier
    that honours the contract with two classes or more, every stored,
    well-shaped input array and every configuration whose scale and sample
    size are not negative. *)
Lemma predict_returns x bs ia (w : world G) ax :
  (2 <= classes)%nat ->
  (0 <= sample_size self)%Z ->
  w_heap w !! x = Some ax ->
  wf_ndarray ax ->
  exists preds w',
    predict self x bs ia w = (Ok preds, w') /\
    length preds = fst (shape ax).
Proof.
  intros Hc Hn Hax Hwf.
  assert (Hiter : iter x w
                  = (Ok (map (fun i => (x, i)) (seq 0 (fst (shape ax)))), w)).
  { unfold iter, len, read, bind, ret. rewrite Hax. reflexivity. }
  destruct (for_in_predict_returns bs ia x ax Hc Hn (seq 0 (fst (shape ax)))
              (0%nat, []) w (rows_readable ax Hwf) Hax)
    as ([na preds] & w1 & Hloop).
  assert (Hpl : predict_loop self x bs ia w = (Ok (na, preds), w1)).
  { unfold predict_loop. rewrite (bind_ok _ _ _ _ _ Hiter). exact Hloop. }
  assert (Hlen : length preds = fst (shape ax)).
  { apply for_in_predict_length in Hloop. simpl in Hloop.
    rewrite Hloop, length_map, length_seq. reflexivity. }
  unfold predict. rewrite (bind_ok _ _ _ _ _ Hpl). simpl.
  destruct (0 <? na)%nat.
  - eexists. eexists. split; [reflexivity | exact Hlen].
  - eexists. eexists. split; [reflexivity | exact Hlen].
Qed.

(** A round of [certify] returns when there is a class and the
    certification sample count is not negative. *)
Lemma certify_body_returns n (x_i : view) st (w : world G) ax row :
  (0 < classes)%nat ->
  (0 <= sample_size self)%Z ->
  (0 <= n)%Z ->
  w_heap w !! fst x_i = Some ax ->
  data ax !! snd x_i = Some row ->
  exists st' w',
    certify_body self n x_i st w = (Ok st', w') /\
    length (fst st') = S (length (fst st)) /\
    w_heap w' !! fst x_i = Some ax.
Proof.
  intros Hc Hss Hn Hax Hrow. destruct st as [pr rad].
  destruct (prediction_counts_returns x_i None 128 w ax row Hc Hax Hrow Hss)
    as (counts_pred & w1 & Hrun1 & Hlen1 & Hkeep1).
  destruct (prediction_counts_returns x_i (Some n) 128 w1 ax row Hc Hkeep1
              Hrow Hn)
    as (counts_est & w2 & Hrun2 & Hlen2 & Hkeep2).
  assert (Hne : counts_pred <> []) by (intros ->; simpl in Hlen1; lia).
  pose proof (argmax_ix_lt counts_pred Hne) as Hlt.
  destruct (lookup_lt_is_Some_2 counts_est (argmax_ix counts_pred))
    as [count_class Hcc]; [lia|].
  unfold certify_body.
  rewrite (bind_ok _ _ _ _ _ Hrun1).
  unfold bind at 1. unfold lift at 1. rewrite (np_argmax_ok _ Hne).
  rewrite (bind_ok _ _ _ _ _ Hrun2).
  unfold bind, lift, getitem. rewrite Hcc.
  destruct (Qltb _ _); unfold ret; eexists; eexists;
    (split; [reflexivity|]); simpl; rewrite length_app; simpl;
    (split; [lia | exact Hkeep2]).
Qed.

Lemma for_in_certify_returns n (x : loc) ax :
  (0 < classes)%nat ->
  (0 <= sample_size self)%Z ->
  (0 <= n)%Z ->
  forall (ixs : list nat) st (w : world G),
    Forall (fun i => is_Some (data ax !! i)) ixs ->
    w_heap w !! x = Some ax ->
    exists st' w',
      for_in (certify_body self n) (map (fun i => (x, i)) ixs) st w
      = (Ok st', w') /\
      length (fst st') = (length (fst st) + length ixs)%nat.
Proof.
  intros Hc Hss Hn ixs. induction ixs as [|i ixs IH]; intros st w Hrows Hax.
  - eexists. eexists. split; [reflexivity|]. simpl. lia.
  - inversion Hrows as [|? ? [row Hrow] Hrest]; subst.
    destruct (certify_body_returns n (x, i) st w ax row Hc Hss Hn Hax Hrow)
      as (st1 & w1 & Hb & Hlen1 & Hkeep).
    destruct (IH st1 w1 Hrest Hkeep) as (st' & w' & Hloop & Hlen).
    exists st', w'. simpl. rewrite (bind_ok _ _ _ _ _ Hb).
    split; [exact Hloop | lia].
Qed.

(** [certify] returns, with one class and one radius per input, for every
    classifier that honours the contract with at least one class. *)
Lemma certify_returns x n (w : world G) ax :
  (0 < classes)%nat ->
  (0 <= sample_size self)%Z ->
  (0 <= n)%Z ->
  w_heap w !! x = Some ax ->
  wf_ndarray ax ->
  exists preds radii w',
    certify self x n w = (Ok (preds, radii), w') /\
    length preds = fst (shape ax).
Proof.
  intros Hc Hss Hn Hax Hwf.
  assert (Hiter : iter x w
                  = (Ok (map (fun i => (x, i)) (seq 0 (fst (shape ax)))), w)).
  { unfold iter, len, read, bind, ret. rewrite Hax. reflexivity. }
  destruct (for_in_certify_returns n x ax Hc Hss Hn (seq 0 (fst (shape ax)))
              ([], []) w (rows_readable ax Hwf) Hax)
    as ([preds radii] & w1 & Hloop & Hlen).
  exists preds, radii, w1. unfold certify.
  rewrite (bind_ok _ _ _ _ _ Hiter).
  split; [exact Hloop|]. simpl in Hlen. rewrite Hlen, length_seq. reflexivity.
Qed.
End Progress.

(** ** The test doubles *)

Lemma picking_well_behaved classes pick :
  well_behaved (Scenario.picking classes pick) classes.
Proof.
  intros h x bs a Ha. simpl. rewrite Ha.
  eexists. eexists. split; [reflexivity|].
  split; [|reflexivity]. split; simpl.
  - rewrite length_map, length_seq. reflexivity.
  - apply Forall_map, Forall_forall. intros i _. simpl.
    unfold np_zeros. rewrite length_insert, length_replicate. reflexivity.
Qed.

Lemma picking_writes_only_batch classes pick :
  writes_only_batch (Scenario.picking classes pick).
Proof.
  intros h x bs l _ _. simpl. destruct (h !! x); reflexivity.
Qed.

(** The lower limits of [Scenario.single_trial] are the Clopper-Pearson
    limits for one trial, whatever the level. *)
Lemma single_trial_exact (k : nat) (a : Q) :
  (k <= 1)%nat -> 0 <= a <= 1 ->
  clopper_pearson_lower k 1 a
    (fst (proportion_confint (Statistics := Scenario.single_trial)
            (Qnat k) (Qnat 1) (2 * a) "beta")).
Proof.
  intros Hk [Ha0 Ha1]. destruct k as [|[|k]]; [| |lia]; simpl.
  - left. split; reflexivity.
  - right. split; [lia|].
    assert (Heq : 2 * a / 2 == a) by (field; discriminate).
    split; [rewrite Heq; split; assumption|].
    unfold binom_sf, binom_pmf. simpl. change (inject_Z (choose 1 1)) with 1.
    field.
Qed.

(** The values SciPy documents for the exact test and the tail behind the
    Clopper-Pearson limits of the test doubles. *)
Example binom_test_3_of_10 :
  exists p_value, binom_test 3 10 (1 # 2) = Ok p_value /\ p_value == 11 # 32.
Proof. eexists. split; [reflexivity|]. vm_compute. reflexivity. Qed.

Example binom_sf_two_trials :
  binom_sf 1 2 (1 # 5) == 9 # 25 /\ binom_sf 2 2 (3 # 5) == 9 # 25.
Proof. split; vm_compute; reflexivity. Qed.

(** Without an overriding classifier every vote fails. *)
Example predict_without_model_raises :
  fst (predict (RS := Scenario.counter_source) (CL := mixin_predict_model)
         Scenario.four_samples 0%nat 128 true Scenario.x_world)
  = Raise NotImplementedError.
Proof. vm_compute. reflexivity. Qed.

(** A single output class leaves no [top[1]]. *)
Example predict_one_class_raises :
  fst (predict (RS := Scenario.counter_source) (CL := Scenario.one_class)
         Scenario.four_samples 0%nat 128 false Scenario.x_world)
  = Raise IndexError.
Proof. vm_compute. reflexivity. Qed.

(** The scenario of a unanimous vote: 100 samples, scale 1/4, alpha 1/1000
    and a classifier that always answers class 0 give the one-hot vector of
    class 0 whether or not abstention is on. *)
Example predict_unanimous_vote :
  let self := mk_mixin 100 (1 # 4) (1 # 1000) in
  fst (predict (RS := Scenario.counter_source) (CL := Scenario.always0) self
         0%nat 128 true Scenario.x_world) = Ok [[1; 0]] /\
  fst (predict (RS := Scenario.counter_source) (CL := Scenario.always0) self
         0%nat 128 false Scenario.x_world) = Ok [[1; 0]].
Proof. split; vm_compute; reflexivity. Qed.

(** ** The theorems at work on the test doubles *)

Import Scenario.

Lemma prediction_counts_one_vote_per_sample_witness :
  _noisy_samples (RS := counter_source) four_samples (0%nat, 0%nat) None x_world
  = (Ok 3%nat, after_sampling) /\
  w_heap after_sampling !! 3%nat = Some first_batch /\
  wf_ndarray (scores 2 by_halves first_batch) /\
  exists counts,
    _prediction_counts (RS := counter_source) (CL := half_half) four_samples
      (0%nat, 0%nat) None 128 x_world = (Ok counts, after_sampling) /\
    length counts = 2%nat /\
    (forall c, (c < 2)%nat ->
       counts !! c
       = Some (Qnat (votes_for c (data (scores 2 by_halves first_batch))))) /\
    sum_list_with
      (fun c => votes_for c (data (scores 2 by_halves first_batch)))
      (seq 0 2) = 4%nat /\
    4%nat = Z.to_nat (samples_requested four_samples None) /\
    np_sum counts = Qnat (Z.to_nat (samples_requested four_samples None)).
Proof.
  assert (Hs : _noisy_samples (RS := counter_source) four_samples (0%nat, 0%nat) None
                 x_world = (Ok 3%nat, after_sampling))
    by (vm_compute; reflexivity).
  assert (Hb : w_heap after_sampling !! 3%nat = Some first_batch)
    by (vm_compute; reflexivity).
  assert (Hwf : wf_ndarray (scores 2 by_halves first_batch))
    by (split; [reflexivity | repeat constructor]).
  split; [exact Hs|]. split; [exact Hb|]. split; [exact Hwf|].
  apply (prediction_counts_one_vote_per_sample (RS := counter_source) (CL := half_half)
           four_samples (0%nat, 0%nat) None 128 x_world after_sampling
           after_sampling 3%nat first_batch
           (scores 2 by_halves first_batch) Hs Hb).
  - vm_compute. reflexivity.
  - exact Hwf.
  - reflexivity.
  - simpl. lia.
Defined.



Lemma predict_abstains_on_equal_counts_witness :
  let w1 := snd (_prediction_counts (RS := counter_source) (CL := half_half)
                   four_samples (0%nat, 0%nat) None 128 x_world) in
  _prediction_counts (RS := counter_source) (CL := half_half) four_samples
    (0%nat, 0%nat) None 128 x_world = (Ok [2; 2], w1) /\
  np_max [2; 2] = Ok 2 /\
  getitem (rev (argsort [2; 2])) 1 = Ok 0%nat /\
  (exists p_value,
     binom_test 2 (2 + 2) (1 # 2) = Ok p_value /\
     p_value == 1 /\ ~ p_value <= alpha four_samples) /\
  predict_body (RS := counter_source) (CL := half_half) four_samples 128 true
    (0%nat, 0%nat) (0%nat, []) x_world
  = (Ok (1%nat, [] ++ [np_zeros (length [2; 2])]), w1).
Proof.
  intros w1.
  assert (Hc : _prediction_counts (RS := counter_source) (CL := half_half) four_samples
                 (0%nat, 0%nat) None 128 x_world = (Ok [2; 2], w1))
    by (vm_compute; reflexivity).
  split; [exact Hc|]. split; [reflexivity|]. split; [reflexivity|].
  apply (predict_abstains_on_equal_counts (RS := counter_source) (CL := half_half)
           four_samples 128 (0%nat, 0%nat) 0%nat [] x_world w1
           [2; 2] 2 2 0%nat).
  - reflexivity.
  - reflexivity.
  - exact Hc.
  - reflexivity.
  - reflexivity.
  - reflexivity.
  - reflexivity.
Defined.

Lemma predict_certify_leave_input_unchanged_witness :
  let x_array := mk_ndarray (1%nat, 2%nat) [[1; 2]] in
  writes_only_batch (clobbering 2 by_halves) /\
  w_heap x_world !! 0%nat = Some x_array /\
  w_heap (snd (predict (RS := counter_source) (CL := clobbering 2 by_halves)
                 four_samples 0%nat 128 true x_world)) !! 0%nat
  = Some x_array /\
  w_heap (snd (certify (RS := counter_source) (CL := clobbering 2 by_halves)
                 (ST := single_trial) four_samples 0%nat 1 x_world)) !! 0%nat
  = Some x_array /\
  (forall x_i m w0 x_new w1,
     _noisy_samples (RS := counter_source) four_samples x_i m w0
     = (Ok x_new, w1) ->
     (length (w_heap w0) <= x_new)%nat /\
     exists k, w_heap w1 = w_heap w0 ++ k).
Proof.
  intros x_array.
  assert (Hframe : writes_only_batch (clobbering 2 by_halves)).
  { intros h x bs l Hne Hlt. simpl.
    destruct (h !! x); simpl; [|reflexivity].
    apply list_lookup_insert_ne. congruence. }
  split; [exact Hframe|]. split; [reflexivity|].
  exact (predict_certify_leave_input_unchanged (RS := counter_source)
           (CL := clobbering 2 by_halves) (ST := single_trial)
           four_samples 0%nat 128 1 true x_world 0%nat x_array
           Hframe eq_refl).
Defined.




(** * Further properties of the mixin *)

(** ** Empty inputs and failures in the first round *)

Section FirstRound.
Context {G : Type} {RS : RandomSource G} {CL : Classifier} {ST : Statistics}.
Variable self : RandomizedSmoothingMixin.

Lemma iter_nonempty x (w : world G) a :
  w_heap w !! x = Some a -> (0 < fst (shape a))%nat ->
  iter x w
  = (Ok ((x, 0%nat) :: map (fun i => (x, i)) (seq 1 (fst (shape a) - 1))), w).
Proof.
  intros Ha Hrows. unfold iter, len, read, bind, ret. rewrite Ha.
  destruct (fst (shape a)) as [|k]; [lia|].
  simpl. rewrite Nat.sub_0_r. reflexivity.
Qed.

Lemma first_row_readable a :
  wf_ndarray a -> (0 < fst (shape a))%nat -> exists row, data a !! 0%nat = Some row.
Proof.
  intros [Hlen _] Hrows. apply lookup_lt_is_Some_2. lia.
Qed.

Lemma predict_first_round_raises x bs ia (w w1 : world G) a e :
  w_heap w !! x = Some a -> (0 < fst (shape a))%nat ->
  predict_body self bs ia (x, 0%nat) (0%nat, []) w = (Raise e, w1) ->
  predict self x bs ia w = (Raise e, w1).
Proof.
  intros Ha Hrows Hb. unfold predict, predict_loop.
  apply bind_raise. rewrite (bind_ok _ _ _ _ _ (iter_nonempty x w a Ha Hrows)).
  simpl. apply bind_raise. exact Hb.
Qed.

Lemma certify_first_round_raises x n (w w1 : world G) a e :
  w_heap w !! x = Some a -> (0 < fst (shape a))%nat ->
  certify_body self n (x, 0%nat) ([], []) w = (Raise e, w1) ->
  certify self x n w = (Raise e, w1).
Proof.
  intros Ha Hrows Hb. unfold certify.
  rewrite (bind_ok _ _ _ _ _ (iter_nonempty x w a Ha Hrows)).
  simpl. apply bind_raise. exact Hb.
Qed.

Lemma first_vote_raises x bs ia n (w w1 : world G) a e :
  w_heap w !! x = Some a -> (0 < fst (shape a))%nat ->
  (forall batch_size,
     _prediction_counts self (x, 0%nat) None batch_size w = (Raise e, w1)) ->
  predict self x bs ia w = (Raise e, w1) /\
  certify self x n w = (Raise e, w1).
Proof.
  intros Ha Hrows Hc. split.
  - apply (predict_first_round_raises x bs ia w w1 a e Ha Hrows).
    unfold predict_body. apply bind_raise. apply Hc.
  - apply (certify_first_round_raises x n w w1 a e Ha Hrows).
    unfold certify_body. apply bind_raise. apply Hc.
Qed.

(** [_noisy_samples] refuses a negative sample count and a negative scale. *)
Lemma noisy_samples_refuses (x : view) (n : option Z) (w : world G) ax row :
  w_heap w !! fst x = Some ax ->
  data ax !! snd x = Some row ->
  (samples_requested self n < 0)%Z \/ scale self < 0 ->
  exists w1, _noisy_samples self x n w = (Raise ValueError, w1).
Proof.
  intros Hax Hrow Hbad.
  unfold _noisy_samples, np_expand_dims, np_repeat, read_view, np_shape,
    np_random_normal, np_add, read, alloc, bind, ret, raise.
  fold (samples_requested self n).
  destruct w as [h g out]. destruct x as [lx i]. simpl in *.
  rewrite Hax. simpl. rewrite Hrow. simpl.
  destruct (Z.ltb_spec (samples_requested self n) 0) as [Hneg|Hpos].
  - eexists. reflexivity.
  - destruct Hbad as [Hbad|Hbad]; [lia|].
    simpl. rewrite lookup_app_r by lia. rewrite Nat.sub_diag. simpl.
    apply Qltb_lt in Hbad. rewrite Hbad. eexists. reflexivity.
Qed.
End FirstRound.

(** X1. On an input without rows [predict] returns no prediction and
    [certify] no class and no radius; neither draws noise, calls the
    classifier, prints or changes anything, whatever the configuration. *)
Theorem predict_certify_empty_input
    {G : Type} {RS : RandomSource G} {CL : Classifier} {ST : Statistics}
    (self : RandomizedSmoothingMixin) (x : loc) (batch_size n : Z)
    (is_abstain : bool) (w : world G) (a : ndarray) :
  w_heap w !! x = Some a ->
  fst (shape a) = 0%nat ->
  predict self x batch_size is_abstain w = (Ok [], w) /\
  certify self x n w = (Ok ([], []), w).
Proof.
  intros Ha Hrows.
  unfold predict, predict_loop, certify, iter, len, read, bind, ret.
  rewrite Ha, Hrows. simpl. split; reflexivity.
Qed.

(** X2. With the [_predict_model] of the mixin itself, which only raises,
    [predict] and [certify] raise [NotImplementedError] on every input that
    has a row, once the samples of the first row are drawn. *)
Theorem predict_certify_need_a_model
    {G : Type} {RS : RandomSource G} {ST : Statistics}
    (self : RandomizedSmoothingMixin) (x : loc) (batch_size n : Z)
    (is_abstain : bool) (w : world G) (a : ndarray) :
  w_heap w !! x = Some a ->
  wf_ndarray a ->
  (0 < fst (shape a))%nat ->
  (0 <= sample_size self)%Z ->
  0 <= scale self ->
  fst (predict (CL := mixin_predict_model) self x batch_size is_abstain w)
  = Raise NotImplementedError /\
  fst (certify (CL := mixin_predict_model) self x n w)
  = Raise NotImplementedError.
Proof.
  intros Ha Hwf Hrows Hss Hscale.
  destruct (first_row_readable a Hwf Hrows) as [row Hrow].
  destruct (noisy_samples_returns self Hscale (x, 0%nat) None w a row
              Ha Hrow Hss) as (x_new & w1 & batch & Hs & _ & _).
  destruct (first_vote_raises (CL := mixin_predict_model) self x batch_size
              is_abstain n w
              (mk_world (w_heap w1) (w_rng w1) (w_stdout w1)) a
              NotImplementedError Ha Hrows) as [Hp Hc].
  - intros bs. unfold _prediction_counts.
    rewrite (bind_ok _ _ _ _ _ Hs). apply bind_raise. reflexivity.
  - rewrite Hp, Hc. split; reflexivity.
Qed.

(** X3. A negative [sample_size] or [scale], which the constructor lets
    through, makes [predict] and [certify] raise [ValueError] in the first
    round, on every input that has a row; no prediction is made and the
    classifier is not called. *)
Theorem invalid_configuration_fails_at_first_call
    {G : Type} {RS : RandomSource G} {CL : Classifier} {ST : Statistics}
    (self : RandomizedSmoothingMixin) (x : loc) (batch_size n : Z)
    (is_abstain : bool) (w : world G) (a : ndarray) :
  w_heap w !! x = Some a ->
  wf_ndarray a ->
  (0 < fst (shape a))%nat ->
  (sample_size self < 0)%Z \/ scale self < 0 ->
  fst (predict self x batch_size is_abstain w) = Raise ValueError /\
  fst (certify self x n w) = Raise ValueError /\
  exists w1, _noisy_samples self (x, 0%nat) None w = (Raise ValueError, w1).
Proof.
  intros Ha Hwf Hrows Hbad.
  destruct (first_row_readable a Hwf Hrows) as [row Hrow].
  destruct (noisy_samples_refuses self (x, 0%nat) None w a row Ha Hrow Hbad)
    as [w1 Hs].
  destruct (first_vote_raises self x batch_size is_abstain n w w1 a
              ValueError Ha Hrows) as [Hp Hc].
  - intros bs. unfold _prediction_counts. apply bind_raise. exact Hs.
  - rewrite Hp, Hc. split; [reflexivity|]. split; [reflexivity|].
    exists w1. exact Hs.
Qed.

(** ** The samples of [_noisy_samples] *)

Section Samples.
Context {G : Type} {RS : RandomSource G}.
Variable self : RandomizedSmoothingMixin.

Lemma advance_add a b (g : G) : advance (a + b) g = advance b (advance a g).
Proof.
  revert g. induction a as [|a IH]; intros g; simpl; [reflexivity|]. apply IH.
Qed.

Lemma draw_row_rng s d (g : G) : snd (draw_row s d g) = advance d g.
Proof.
  revert g. induction d as [|d IH]; intros g; simpl; [reflexivity|].
  specialize (IH (snd (standard_normal g))).
  destruct (standard_normal g) as [z g1]. simpl in *.
  destruct (draw_row s d g1) as [zs g2]. exact IH.
Qed.

Lemma draw_rows_rng s n d (g : G) :
  snd (draw_rows s n d g) = advance (n * d) g.
Proof.
  revert g. induction n as [|n IH]; intros g; simpl; [reflexivity|].
  rewrite advance_add, <- (draw_row_rng s d g).
  specialize (IH (snd (draw_row s d g))).
  destruct (draw_row s d g) as [r g1]. simpl in *.
  destruct (draw_rows s n d g1) as [rs g2]. exact IH.
Qed.

Lemma nth_draw_advance a i (g : G) :
  nth_draw i (advance a g) = nth_draw (a + i) g.
Proof. unfold nth_draw. rewrite advance_add. reflexivity. Qed.

Lemma draw_row_lookup s d (g : G) c e :
  fst (draw_row s d g) !! c = Some e -> e = 0 + s * nth_draw c g.
Proof.
  revert g c. induction d as [|d IH]; intros g c; simpl.
  - rewrite lookup_nil. discriminate.
  - specialize (IH (snd (standard_normal g))).
    unfold nth_draw in *.
    destruct c as [|c]; simpl.
    + destruct (standard_normal g) as [z g1]. simpl in *.
      destruct (draw_row s d g1) as [zs g2]. simpl.
      intros [= <-]. reflexivity.
    + specialize (IH c).
      destruct (standard_normal g) as [z g1]. simpl in *.
      destruct (draw_row s d g1) as [zs g2]. simpl in *.
      exact IH.
Qed.

Lemma draw_rows_lookup s n d (g : G) j r c e :
  fst (draw_rows s n d g) !! j = Some r -> r !! c = Some e ->
  e = 0 + s * nth_draw (j * d + c) g.
Proof.
  revert g j. induction n as [|n IH]; intros g j; simpl.
  - rewrite lookup_nil. discriminate.
  - pose proof (draw_row_rng s d g) as Hrng.
    pose proof (draw_row_lookup s d g c e) as Hrow.
    destruct (draw_row s d g) as [r0 g1]. simpl in Hrng, Hrow. subst g1.
    specialize (IH (advance d g)).
    destruct (draw_rows s n d (advance d g)) as [rs g2]. simpl in *.
    destruct j as [|j]; simpl.
    + intros [= <-] Hc. apply Hrow. exact Hc.
    + intros Hj Hc. rewrite (IH j Hj Hc), nth_draw_advance.
      do 3 f_equal. lia.
Qed.

Lemma noisy_rows_lookup s (row : list Q) n d (g : G) j r c v :
  zip_with (zip_with Qplus) (replicate n row) (fst (draw_rows s n d g)) !! j
  = Some r ->
  r !! c = Some v ->
  exists xk, row !! c = Some xk /\ v = xk + (0 + s * nth_draw (j * d + c) g).
Proof.
  intros Hj Hc.
  apply lookup_zip_with_Some in Hj as (row' & r0 & -> & Hrow' & Hr0).
  apply lookup_replicate in Hrow' as [-> _].
  apply lookup_zip_with_Some in Hc as (xk & e & -> & Hxk & He).
  exists xk. split; [exact Hxk|].
  rewrite (draw_rows_lookup s n d g j r0 c e Hr0 He). reflexivity.
Qed.

Lemma draw_row_entries s d (g : G) :
  Forall (fun e => exists z, e = 0 + s * z) (fst (draw_row s d g)).
Proof.
  revert g. induction d as [|d IH]; intros g; simpl; [constructor|].
  destruct (standard_normal g) as [z g1].
  specialize (IH g1). destruct (draw_row s d g1) as [zs g2]. simpl in *.
  constructor; [exists z; reflexivity | exact IH].
Qed.

Lemma draw_rows_entries s n d (g : G) :
  Forall (fun r => length r = d /\ Forall (fun e => exists z, e = 0 + s * z) r)
    (fst (draw_rows s n d g)).
Proof.
  revert g. induction n as [|n IH]; intros g; simpl; [constructor|].
  pose proof (draw_row_length s d g) as Hlen.
  pose proof (draw_row_entries s d g) as Hent.
  destruct (draw_row s d g) as [r g1].
  specialize (IH g1). destruct (draw_rows s n d g1) as [rs g2]. simpl in *.
  constructor; [split; assumption | exact IH].
Qed.

Lemma noisy_row s (row r : list Q) :
  length r = length row ->
  Forall (fun e => exists z, e = 0 + s * z) r ->
  length (zip_with Qplus row r) = length row /\
  Forall2 (fun v xk => exists z, v = xk + (0 + s * z))
    (zip_with Qplus row r) row.
Proof.
  revert r. induction row as [|xk row IH]; intros r Hlen Hr.
  - split; [reflexivity | constructor].
  - destruct r as [|e r]; [discriminate|].
    inversion Hr as [|? ? [z ->] Hr']; subst.
    destruct (IH r) as [Hl HF]; [simpl in Hlen; lia | exact Hr' |].
    simpl. split; [rewrite Hl; reflexivity|].
    constructor; [exists z; reflexivity | exact HF].
Qed.

Lemma noisy_rows s (row : list Q) noise :
  Forall (fun r => length r = length row /\
                   Forall (fun e => exists z, e = 0 + s * z) r) noise ->
  Forall (fun r => length r = length row /\
                   Forall2 (fun v xk => exists z, v = xk + (0 + s * z)) r row)
    (zip_with (zip_with Qplus) (replicate (length noise) row) noise).
Proof.
  induction 1 as [|r noise [Hlen Hr] _ IH]; simpl; constructor.
  - apply noisy_row; assumption.
  - exact IH.
Qed.
End Samples.

(** X4. For a readable input row, a sample count and a scale that are not
    negative, [_noisy_samples] returns a new array, the third of three it
    appends to the store, of shape (n, length of the row); the entry in row
    [j] and column [c] is the entry of the input at column [c] plus [scale]
    times draw number [j * length of the row + c] of the random source the
    call started with; and the random source has moved on by n times the
    length of the row. The count is [sample_size] when [n] is omitted. *)
Theorem noisy_samples_are_perturbed_copies
    {G : Type} {RS : RandomSource G}
    (self : RandomizedSmoothingMixin) (x : view) (n : option Z)
    (w : world G) (ax : ndarray) (row : list Q) :
  w_heap w !! fst x = Some ax ->
  data ax !! snd x = Some row ->
  (0 <= samples_requested self n)%Z ->
  0 <= scale self ->
  exists w1 batch,
    _noisy_samples self x n w = (Ok (length (w_heap w) + 2)%nat, w1) /\
    length (w_heap w1) = (length (w_heap w) + 3)%nat /\
    w_heap w1 !! (length (w_heap w) + 2)%nat = Some batch /\
    shape batch = (Z.to_nat (samples_requested self n), length row) /\
    wf_ndarray batch /\
    (forall j c r v,
        data batch !! j = Some r -> r !! c = Some v ->
        exists xk,
          row !! c = Some xk /\
          v = xk + (0 + scale self * nth_draw (j * length row + c) (w_rng w))) /\
    w_rng w1
    = advance (Z.to_nat (samples_requested self n) * length row) (w_rng w) /\
    w_stdout w1 = w_stdout w.
Proof.
  intros Hax Hrow Hn Hscale.
  unfold _noisy_samples, np_expand_dims, np_repeat, read_view, np_shape,
    np_random_normal, np_add, read, alloc, bind, ret, raise.
  fold (samples_requested self n).
  set (k := Z.to_nat (samples_requested self n)).
  destruct w as [h g out]. destruct x as [lx i]. simpl in *.
  rewrite Hax. simpl. rewrite Hrow. simpl.
  destruct (Z.ltb_spec (samples_requested self n) 0) as [Hneg|_]; [lia|].
  simpl. rewrite lookup_app_r by lia. rewrite Nat.sub_diag. simpl.
  assert (Hs : Qltb (scale self) 0 = false) by (apply Qltb_ge; exact Hscale).
  rewrite Hs. simpl.
  pose proof (draw_rows_length (scale self) k (length row) g) as Hlen.
  pose proof (draw_rows_entries (scale self) k (length row) g) as Hent.
  pose proof (draw_rows_rng (scale self) k (length row) g) as Hrng.
  pose proof (fun j r c v =>
                noisy_rows_lookup (scale self) row k (length row) g j r c v)
    as Hdraw.
  destruct (draw_rows (scale self) k (length row) g) as [noise g'].
  simpl in Hlen, Hent, Hrng, Hdraw. simpl.
  rewrite <- app_assoc. simpl.
  rewrite lookup_app_r by lia. rewrite Nat.sub_diag. simpl.
  rewrite !length_app. simpl.
  rewrite lookup_app_r by lia.
  replace (length h + 1 - length h)%nat with 1%nat by lia. simpl.
  rewrite ?length_app. simpl length.
  eexists. eexists. split; [reflexivity|]. simpl.
  rewrite <- app_assoc. simpl.
  split; [rewrite length_app; simpl; lia|].
  split.
  { rewrite lookup_app_r by lia.
    replace (length h + 2 - length h)%nat with 2%nat by lia. reflexivity. }
  simpl. split; [reflexivity|].
  pose proof (noisy_rows (scale self) row noise Hent) as Hrows.
  rewrite Hlen in Hrows.
  split.
  { split; simpl.
    - rewrite length_zip_with, length_replicate, Hlen. lia.
    - eapply Forall_impl; [exact Hrows|]. intros r [Hr _]. exact Hr. }
  split; [intros j c r v; apply Hdraw|].
  split; [exact Hrng | reflexivity].
Qed.

(** ** Vote counts of any classifier output *)

(** X5. Whatever matrix the classifier returns, the counts that
    [_prediction_counts] returns are whole numbers between 0 and the number
    of rows the matrix claims, at most one per column it claims. *)
Theorem prediction_counts_are_bounded_whole_numbers
    {G : Type} {RS : RandomSource G} {CL : Classifier}
    (self : RandomizedSmoothingMixin) (x : view) (n : option Z) (bs : Z)
    (w w' : world G) (counts : list Q) :
  _prediction_counts self x n bs w = (Ok counts, w') ->
  exists x_new w1 predictions,
    _noisy_samples self x n w = (Ok x_new, w1) /\
    call_predict_model x_new bs w1 = (Ok predictions, w') /\
    (length counts <= snd (shape predictions))%nat /\
    Forall (fun q => exists k : nat,
              q = Qnat k /\ (k <= fst (shape predictions))%nat) counts.
Proof.
  intros Hrun.
  apply prediction_counts_inv in Hrun
    as (x_new & w1 & m & idx & Hs & Hp & _ & ->).
  exists x_new, w1, m. split; [exact Hs|]. split; [exact Hp|].
  destruct (shape m) as [rows cols] eqn:Hshape. simpl.
  destruct (set_rows_bits rows cols idx) as [Hbits Hlen].
  pose proof (column_sums_bounded cols _ Hbits) as Hsum.
  split.
  - clear Hsum. unfold np_sum_axis0.
    induction (set_rows (np_zeros2 (rows, cols)) idx) as [|r l IH]; simpl.
    + unfold np_zeros. rewrite length_replicate. lia.
    + rewrite length_zip_with.
      assert (Hl : (length (fold_right (zip_with Qplus) (np_zeros cols) l)
                    <= cols)%nat).
      { apply IH. inversion Hbits; assumption. simpl in Hlen. lia. }
      lia.
  - eapply Forall_impl; [exact Hsum|].
    intros q (k & -> & Hk). exists k. split; [reflexivity | lia].
Qed.

(** ** What [predict] and [certify] write *)

Section Stdout.
Context {G : Type} {RS : RandomSource G} {CL : Classifier} {ST : Statistics}.
Variable self : RandomizedSmoothingMixin.


End Stdout.


(** ** The class that [predict] names *)

(** X7. The two counts that [predict] hands to the binomial test are the
    largest and the second largest vote count: some class holds [count1], no
    class has more, no other class has more than [count2], and both are
    whole numbers. *)
Theorem predict_tests_the_two_largest_counts
    {G : Type} {RS : RandomSource G} {CL : Classifier}
    (self : RandomizedSmoothingMixin) (batch_size : Z) (x_i : view)
    (counts : list Q) (count1 count2 : Q) :
  voted self batch_size x_i counts count1 count2 ->
  exists top0 c0,
    counts !! top0 = Some c0 /\ c0 == count1 /\
    (forall j c, counts !! j = Some c -> c <= count1) /\
    (forall j c, j <> top0 -> counts !! j = Some c -> c <= count2) /\
    count2 <= count1 /\ whole count1 /\ whole count2.
Proof.
  intros (w0 & w1 & top1 & Hc & Hmax & Ht & H2).
  destruct (top_two_spec counts count1 top1 count2 Hmax Ht H2)
    as (top0 & c0 & Hc0 & Heq & Hne & Hall & Hrest).
  pose proof (prediction_counts_whole self _ _ _ _ _ _ Hc) as Hwhole.
  rewrite Forall_forall in Hwhole.
  exists top0, c0. split; [exact Hc0|]. split; [exact Heq|].
  split; [exact Hall|]. split; [exact Hrest|].
  split.
  { unfold getitem in H2. destruct (counts !! top1) as [c|] eqn:Hc2;
      [|discriminate]. inversion H2; subst c. apply (Hall top1). exact Hc2. }
  split.
  - apply Hwhole. apply np_max_elem. exact Hmax.
  - apply Hwhole. eapply getitem_elem. exact H2.
Qed.


(** ** Classifiers that honour the contract *)

Section Contract.
Context {G : Type} {RS : RandomSource G} {CL : Classifier} {ST : Statistics}.
Variable self : RandomizedSmoothingMixin.
Variable classes : nat.
Hypothesis Hcontract : well_behaved CL classes.

(** Under the contract the classifier's answer is the one it promises. *)
Lemma call_predict_model_contract x_new bs (w1 w' : world G) batch m :
  w_heap w1 !! x_new = Some batch ->
  call_predict_model x_new bs w1 = (Ok m, w') ->
  wf_ndarray m /\ shape m = (fst (shape batch), classes).
Proof.
  intros Hb Hcall.
  destruct (Hcontract (w_heap w1) x_new bs batch Hb)
    as (m' & h' & Hm & Hwf & Hshape).
  unfold call_predict_model in Hcall. rewrite Hm in Hcall.
  inversion Hcall; subst. split; assumption.
Qed.

Lemma prediction_counts_length x n bs (w w' : world G) counts :
  (0 < classes)%nat ->
  _prediction_counts self x n bs w = (Ok counts, w') ->
  length counts = classes.
Proof.
  intros Hc Hrun. pose proof Hrun as Hinv.
  apply prediction_counts_inv in Hinv
    as (x_new & w1 & m & idx & Hs & Hp & _ & _).
  destruct (noisy_samples_store self x n w) as (k & Hheap & _ & Hok).
  rewrite Hs in Hheap, Hok. simpl in Hheap, Hok.
  destruct (Hok x_new eq_refl) as (_ & _ & _ & batch & Hb & _).
  rewrite <- Hheap in Hb.
  destruct (call_predict_model_contract x_new bs w1 w' batch m Hb Hp)
    as [Hwf Hshape].
  assert (Hcols : (0 < snd (shape m))%nat) by (rewrite Hshape; exact Hc).
  rewrite (prediction_counts_run self x n bs w w1 w' x_new m Hs Hp Hwf Hcols)
    in Hrun.
  inversion Hrun. rewrite length_map, length_seq, Hshape. reflexivity.
Qed.

(** The first vote on a readable row returns (or, without classes, is
    refused). *)
Lemma first_vote_outcome x n bs (w : world G) ax row :
  0 <= scale self ->
  w_heap w !! fst x = Some ax ->
  data ax !! snd x = Some row ->
  (0 <= samples_requested self n)%Z ->
  exists w',
    (classes = 0%nat ->
     _prediction_counts self x n bs w = (Raise ValueError, w')) /\
    ((0 < classes)%nat ->
     exists counts, _prediction_counts self x n bs w = (Ok counts, w') /\
                    length counts = classes).
Proof.
  intros Hscale Hax Hrow Hn.
  destruct (noisy_samples_returns self Hscale x n w ax row Hax Hrow Hn)
    as (x_new & w1 & batch & Hs & Hb & _).
  destruct (Hcontract (w_heap w1) x_new bs batch Hb)
    as (m & h' & Hm & Hwf & Hshape).
  assert (Hcall : call_predict_model x_new bs w1
                  = (Ok m, mk_world h' (w_rng w1) (w_stdout w1))).
  { unfold call_predict_model. rewrite Hm. reflexivity. }
  exists (mk_world h' (w_rng w1) (w_stdout w1)). split.
  - intros Hzero. unfold _prediction_counts.
    rewrite (bind_ok _ _ _ _ _ Hs), (bind_ok _ _ _ _ _ Hcall).
    apply bind_raise. unfold lift, np_argmax_rows.
    rewrite Hshape, Hzero. reflexivity.
  - intros Hc.
    assert (Hcols : (0 < snd (shape m))%nat) by (rewrite Hshape; exact Hc).
    eexists. split.
    + apply (prediction_counts_run self x n bs w w1 _ x_new m Hs Hcall
               Hwf Hcols).
    + rewrite length_map, length_seq, Hshape. reflexivity.
Qed.
End Contract.

(** X9. [predict] cannot serve a classifier with fewer than two classes:
    on every input that has a row it raises [IndexError] when the classifier
    has one class (there is no [top[1]]) and [ValueError] when it has none,
    with [is_abstain] on or off. *)
Theorem predict_needs_two_classes
    {G : Type} {RS : RandomSource G} {CL : Classifier}
    (self : RandomizedSmoothingMixin) (classes : nat) (x : loc)
    (batch_size : Z) (is_abstain : bool) (w : world G) (a : ndarray) :
  well_behaved CL classes ->
  w_heap w !! x = Some a ->
  wf_ndarray a ->
  (0 < fst (shape a))%nat ->
  (0 <= sample_size self)%Z ->
  0 <= scale self ->
  (classes = 1%nat ->
   fst (predict self x batch_size is_abstain w) = Raise IndexError) /\
  (classes = 0%nat ->
   fst (predict self x batch_size is_abstain w) = Raise ValueError).
Proof.
  intros Hcontract Ha Hwf Hrows Hss Hscale.
  destruct (first_row_readable a Hwf Hrows) as [row Hrow].
  destruct (first_vote_outcome self classes Hcontract (x, 0%nat) None
              batch_size w a row Hscale Ha Hrow Hss) as (w1 & Hnone & Hsome).
  split; intros Hcl.
  - destruct (Hsome ltac:(lia)) as (counts & Hrun & Hlen).
    rewrite (predict_first_round_raises self x batch_size is_abstain w w1 a
               IndexError Ha Hrows); [reflexivity|].
    unfold predict_body. rewrite (bind_ok _ _ _ _ _ Hrun).
    destruct counts as [|c [|c' counts]]; simpl in Hlen; try lia.
    reflexivity.
  - rewrite (predict_first_round_raises self x batch_size is_abstain w w1 a
               ValueError Ha Hrows); [reflexivity|].
    unfold predict_body. apply bind_raise. apply Hnone. exact Hcl.
Qed.

(** X10. For a classifier that honours the contract with two classes or
    more, a stored well-shaped input and a scale and sample size that are
    not negative, [predict] returns: one vector per input, each with one
    entry per class, one-hot or all-zero. *)
Theorem predict_returns_a_vector_per_input
    {G : Type} {RS : RandomSource G} {CL : Classifier}
    (self : RandomizedSmoothingMixin) (classes : nat) (x : loc)
    (batch_size : Z) (is_abstain : bool) (w : world G) (a : ndarray) :
  well_behaved CL classes ->
  writes_only_batch CL ->
  (2 <= classes)%nat ->
  (0 <= sample_size self)%Z ->
  0 <= scale self ->
  w_heap w !! x = Some a ->
  wf_ndarray a ->
  exists preds w',
    predict self x batch_size is_abstain w = (Ok preds, w') /\
    length preds = fst (shape a) /\
    Forall (fun v => length v = classes /\ (is_one_hot v \/ is_all_zero v))
      preds.
Proof.
  intros Hcontract Hframe Hc Hss Hscale Ha Hwf.
  destruct (predict_returns self classes Hcontract Hframe Hscale x batch_size
              is_abstain w a Hc Hss Ha Hwf) as (preds & w' & Hrun & Hlen).
  exists preds, w'. split; [exact Hrun|]. split; [exact Hlen|].
  apply predict_inv in Hrun as (na & w1 & Hloop & _ & _).
  apply predict_loop_spec in Hloop as (xs & _ & HF & _).
  clear Hlen. induction HF as [|x_i v xs preds (Hd & Hshape & _) _ IH];
    constructor; [|exact IH].
  split; [|exact Hshape].
  assert (Hvoted : forall counts c1 c2,
            voted self batch_size x_i counts c1 c2 -> length counts = classes).
  { intros counts c1 c2 (w0 & w2 & t1 & Hrun & _).
    apply (prediction_counts_length self classes Hcontract _ _ _ _ _ _
             ltac:(lia) Hrun). }
  destruct is_abstain.
  - destruct Hd as (counts & c1 & c2 & pv & Hv & _ & _ & Hone & Hzero).
    destruct (Qlt_le_dec (alpha self) pv) as [Hgt|Hle].
    + rewrite (proj1 Hzero (Qlt_not_le _ _ Hgt)).
      unfold np_zeros. rewrite length_replicate. eapply Hvoted. exact Hv.
    + rewrite (proj1 Hone Hle), one_hot_length. eapply Hvoted. exact Hv.
  - destruct Hd as (counts & c1 & c2 & Hv & _ & ->).
    rewrite one_hot_length. eapply Hvoted. exact Hv.
Qed.

(** X11. For a classifier that honours the contract with at least one
    class, a stored well-shaped input, and a scale, sample size and
    certification count that are not negative, [certify] returns: one class
    and one radius per input, each class being -1 or the index of a class.
    One class is enough for [certify]. *)
Theorem certify_returns_a_pair_per_input
    {G : Type} {RS : RandomSource G} {CL : Classifier} {ST : Statistics}
    (self : RandomizedSmoothingMixin) (classes : nat) (x : loc) (n : Z)
    (w : world G) (a : ndarray) :
  well_behaved CL classes ->
  writes_only_batch CL ->
  (0 < classes)%nat ->
  (0 <= sample_size self)%Z ->
  (0 <= n)%Z ->
  0 <= scale self ->
  w_heap w !! x = Some a ->
  wf_ndarray a ->
  exists preds radii w',
    certify self x n w = (Ok (preds, radii), w') /\
    length preds = fst (shape a) /\
    length radii = fst (shape a) /\
    Forall (fun c => c = (-1)%Z \/ (0 <= c < Z.of_nat classes)%Z) preds.
Proof.
  intros Hcontract Hframe Hc Hss Hn Hscale Ha Hwf.
  destruct (certify_returns self classes Hcontract Hframe Hscale x n w a
              Hc Hss Hn Ha Hwf) as (preds & radii & w' & Hrun & Hlen).
  exists preds, radii, w'. split; [exact Hrun|]. split; [exact Hlen|].
  apply certify_inv in Hrun as (xs & ts & _ & -> & -> & HF).
  rewrite length_map in Hlen. split; [rewrite length_map; exact Hlen|].
  clear Hlen. induction HF as [|x_i cr xs ts Hcr _ IH]; simpl;
    constructor; [|exact IH].
  destruct Hcr as (cs & cc & (w0 & w1 & w2 & cp & ce & Hcp & Harg & _) & _ & ->).
  unfold certified_pair. destruct (Qltb _ _); simpl; [left; reflexivity|].
  right.
  destruct (np_argmax_spec cp cs Harg) as (m & Hm & _).
  apply lookup_lt_Some in Hm.
  rewrite (prediction_counts_length self classes Hcontract _ _ _ _ _ _ Hc Hcp)
    in Hm.
  lia.
Qed.

(** ** The binomial test at a unanimous vote *)

Lemma choose_1 n : choose n 1 = Z.of_nat n.
Proof.
  induction n as [|n IH]; [reflexivity|].
  rewrite choose_succ, choose_0_r, IH. lia.
Qed.

(** Inside a row the coefficients are at least the row number. *)
Lemma choose_inner n : forall i,
  (0 < i < n)%nat -> (Z.of_nat n <= choose n i)%Z.
Proof.
  induction n as [|n IH]; intros i Hi; [lia|].
  destruct i as [|k]; [lia|]. rewrite choose_succ.
  destruct (decide (k = 0%nat)) as [->|Hk].
  - rewrite choose_0_r, choose_1. lia.
  - destruct (decide (S k = n)) as [Heq|Hne].
    + rewrite Heq, choose_diag. pose proof (IH k ltac:(lia)). lia.
    + pose proof (IH k ltac:(lia)). pose proof (IH (S k) ltac:(lia)). lia.
Qed.

Lemma Qpow_half_le k : Qpow (1 # 2) (S k) <= 1 # 2.
Proof.
  induction k as [|k IH]; [discriminate|].
  change (Qpow (1 # 2) (S (S k))) with ((1 # 2) * Qpow (1 # 2) (S k)).
  lra.
Qed.

(** When all [n] trials succeed, only that outcome and its mirror image are
    as unlikely as the observed one: the two-sided p-value is 2 / 2^n. *)
Lemma two_sided_p_value_unanimous n :
  (0 < n)%nat -> two_sided_p_value n n (1 # 2) == 2 * Qpow (1 # 2) n.
Proof.
  intros Hn. unfold two_sided_p_value.
  set (P := Qpow (1 # 2) n).
  assert (HP : 0 < P) by (apply Qpow_pos; reflexivity).
  assert (Hd : binom_pmf n n (1 # 2) == P).
  { rewrite binom_pmf_half, choose_diag by lia. unfold P. ring. }
  assert (H0 : binom_pmf 0 n (1 # 2) == P).
  { rewrite binom_pmf_half, choose_0_r by lia. unfold P. ring. }
  set (f := fun i => if Qle_bool (binom_pmf i n (1 # 2))
                          (binom_pmf n n (1 # 2) * (1 + (1 # 10000000)))
                     then binom_pmf i n (1 # 2) else 0).
  assert (Hf0 : f 0%nat == P).
  { unfold f. destruct (Qle_bool _ _) eqn:Hb; [exact H0|].
    exfalso.
    assert (Hle : binom_pmf 0 n (1 # 2)
                  <= binom_pmf n n (1 # 2) * (1 + (1 # 10000000)))
      by (rewrite H0, Hd; lra).
    apply Qle_bool_iff in Hle. congruence. }
  assert (Hfn : f n == P).
  { unfold f. destruct (Qle_bool _ _) eqn:Hb; [exact Hd|].
    exfalso.
    assert (Hle : binom_pmf n n (1 # 2)
                  <= binom_pmf n n (1 # 2) * (1 + (1 # 10000000)))
      by (rewrite Hd; lra).
    apply Qle_bool_iff in Hle. congruence. }
  assert (Hmid : forall i, (0 < i < n)%nat -> f i == 0).
  { intros i Hi. unfold f. destruct (Qle_bool _ _) eqn:Hb; [|reflexivity].
    exfalso. apply Qle_bool_iff in Hb.
    rewrite binom_pmf_half, Hd in Hb by lia. fold P in Hb.
    pose proof (choose_inner n i Hi) as Hc.
    assert (Hc2 : 2 <= inject_Z (choose n i)).
    { change 2 with (inject_Z 2). rewrite <- Zle_Qle. lia. }
    assert (0 <= (inject_Z (choose n i) - 2) * P)
      by (apply Qmult_le_0_compat; lra).
    lra. }
  set (pval := sum_from f 0 (S n)).
  assert (Hpval : pval == 2 * P).
  { unfold pval. destruct n as [|m]; [lia|].
    change (sum_from f 0 (S (S m))) with (f 0%nat + sum_from f 1 (S m)).
    rewrite sum_from_snoc, (sum_from_zero f 1 m)
      by (intros i Hi; apply Hmid; lia).
    change (1 + m)%nat with (S m). rewrite Hf0, Hfn. ring. }
  destruct (Qltb pval 1) eqn:Hlt; [exact Hpval|].
  apply Qltb_ge in Hlt.
  assert (Hhalf : P <= 1 # 2).
  { unfold P. destruct n as [|m]; [lia|]. apply Qpow_half_le. }
  lra.
Qed.

(** X12. At a unanimous vote of [n] samples (the second count is 0),
    [predict] with [is_abstain=True] names the class when 2 / 2^n is at
    most [alpha] and abstains otherwise: below that sample size it abstains
    on every input, however clear the vote. *)
Theorem predict_unanimous_vote_needs_enough_samples
    {G : Type} {RS : RandomSource G} {CL : Classifier}
    (self : RandomizedSmoothingMixin) (batch_size : Z) (x_i : view)
    (n_abstained : nat) (prediction : list (list Q)) (w w1 : world G)
    (counts : list Q) (count1 count2 : Q) (top1 n : nat) :
  _prediction_counts self x_i None batch_size w = (Ok counts, w1) ->
  np_max counts = Ok count1 ->
  getitem (rev (argsort counts)) 1 = Ok top1 ->
  getitem counts top1 = Ok count2 ->
  (0 < n)%nat ->
  count1 == Qnat n ->
  count2 == 0 ->
  (2 * Qpow (1 # 2) n <= alpha self ->
   predict_body self batch_size true x_i (n_abstained, prediction) w
   = (Ok (n_abstained,
          prediction ++ [one_hot (length counts) (argmax_ix counts)]), w1)) /\
  (alpha self < 2 * Qpow (1 # 2) n ->
   predict_body self batch_size true x_i (n_abstained, prediction) w
   = (Ok (S n_abstained, prediction ++ [np_zeros (length counts)]), w1)).
Proof.
  intros Hc Hmax Ht H2 Hn H1eq H2eq.
  pose proof (prediction_counts_whole self _ _ _ _ _ _ Hc) as Hwhole.
  rewrite Forall_forall in Hwhole.
  destruct (Hwhole _ (np_max_elem _ _ Hmax)) as [k1 ->].
  destruct (Hwhole _ (getitem_elem _ _ _ H2)) as [k2 ->].
  assert (Hk1 : k1 = n).
  { unfold Qnat in H1eq. apply (proj1 (inject_Z_injective _ _)) in H1eq. lia. }
  assert (Hk2 : k2 = 0%nat).
  { unfold Qnat in H2eq. change 0 with (inject_Z 0) in H2eq.
    apply (proj1 (inject_Z_injective _ _)) in H2eq. lia. }
  subst k1 k2.
  assert (Hp : binom_test (Qnat n) (Qnat n + Qnat 0) (1 # 2)
               = Ok (two_sided_p_value n n (1 # 2))).
  { rewrite Qnat_plus, Nat.add_0_r.
    apply binom_test_whole; [lia|]. split; discriminate. }
  pose proof (two_sided_p_value_unanimous n Hn) as Hpv.
  destruct (predict_body_run self batch_size true x_i n_abstained prediction
              w w1 counts (Qnat n) top1 (Qnat 0) Hc Hmax Ht H2)
    as [_ Hrun].
  rewrite (Hrun _ eq_refl Hp).
  split; intros Halpha.
  - assert (Hle : two_sided_p_value n n (1 # 2) <= alpha self)
      by (rewrite Hpv; exact Halpha).
    apply Qle_bool_iff in Hle. rewrite Hle. reflexivity.
  - destruct (Qle_bool _ _) eqn:Hb; [|reflexivity].
    apply Qle_bool_iff in Hb. rewrite Hpv in Hb.
    exfalso. apply (Qlt_not_le _ _ Halpha Hb).
Qed.

(** ** Certification at the extremes of the vote *)





(** ** The further properties at work on the test doubles *)

Lemma predict_certify_empty_input_witness :
  w_heap empty_world !! 0%nat = Some (mk_ndarray (0%nat, 2%nat) []) /\
  predict (RS := counter_source) (CL := always0) negative_scale 0%nat 128
    true empty_world = (Ok [], empty_world) /\
  certify (RS := counter_source) (CL := always0) (ST := single_trial)
    negative_scale 0%nat 1 empty_world = (Ok ([], []), empty_world).
Proof.
  split; [reflexivity|].
  exact (predict_certify_empty_input (RS := counter_source) (CL := always0)
           (ST := single_trial) negative_scale 0%nat 128 1 true empty_world
           (mk_ndarray (0%nat, 2%nat) []) eq_refl eq_refl).
Defined.

Lemma predict_certify_need_a_model_witness :
  w_heap x_world !! 0%nat = Some x_array /\
  wf_ndarray x_array /\
  fst (predict (RS := counter_source) (CL := mixin_predict_model)
         four_samples 0%nat 128 true x_world) = Raise NotImplementedError /\
  fst (certify (RS := counter_source) (CL := mixin_predict_model)
         (ST := single_trial) four_samples 0%nat 1 x_world)
  = Raise NotImplementedError.
Proof.
  assert (Hwf : wf_ndarray x_array)
    by (split; [reflexivity | repeat constructor]).
  split; [reflexivity|]. split; [exact Hwf|].
  apply (predict_certify_need_a_model (RS := counter_source)
           (ST := single_trial) four_samples 0%nat 128 1 true x_world x_array).
  - reflexivity.
  - exact Hwf.
  - simpl. lia.
  - simpl. lia.
  - discriminate.
Defined.

Lemma invalid_configuration_fails_at_first_call_witness :
  w_heap x_world !! 0%nat = Some x_array /\
  scale negative_scale < 0 /\
  fst (predict (RS := counter_source) (CL := always0) negative_scale 0%nat
         128 false x_world) = Raise ValueError /\
  fst (certify (RS := counter_source) (CL := always0) (ST := single_trial)
         negative_scale 0%nat 1 x_world) = Raise ValueError /\
  exists w1,
    _noisy_samples (RS := counter_source) negative_scale (0%nat, 0%nat) None
      x_world = (Raise ValueError, w1).
Proof.
  split; [reflexivity|]. split; [reflexivity|].
  apply (invalid_configuration_fails_at_first_call (RS := counter_source)
           (CL := always0) (ST := single_trial) negative_scale 0%nat 128 1
           false x_world x_array).
  - reflexivity.
  - split; [reflexivity | repeat constructor].
  - simpl. lia.
  - right. reflexivity.
Defined.

Lemma noisy_samples_are_perturbed_copies_witness :
  w_heap x_world !! 0%nat = Some x_array /\
  data x_array !! 0%nat = Some [1; 2] /\
  exists w1 batch,
    _noisy_samples (RS := counter_source) four_samples (0%nat, 0%nat) None
      x_world = (Ok 3%nat, w1) /\
    length (w_heap w1) = 4%nat /\
    w_heap w1 !! 3%nat = Some batch /\
    shape batch = (4%nat, 2%nat) /\
    wf_ndarray batch /\
    (forall j c r v,
        data batch !! j = Some r -> r !! c = Some v ->
        exists xk,
          [1; 2] !! c = Some xk /\
          v = xk + (0 + (1 # 4)
                        * nth_draw (RS := counter_source) (j * 2 + c) 0%nat)) /\
    w_rng w1 = advance (RS := counter_source) 8 0%nat /\
    w_stdout w1 = [].
Proof.
  split; [reflexivity|]. split; [reflexivity|].
  apply (noisy_samples_are_perturbed_copies (RS := counter_source)
           four_samples (0%nat, 0%nat) None x_world x_array [1; 2]).
  - reflexivity.
  - reflexivity.
  - simpl. lia.
  - discriminate.
Defined.

Lemma prediction_counts_are_bounded_whole_numbers_witness :
  _prediction_counts (RS := counter_source) (CL := half_half) four_samples
    (0%nat, 0%nat) None 128 x_world = (Ok [2; 2], after_sampling) /\
  exists x_new w1 predictions,
    _noisy_samples (RS := counter_source) four_samples (0%nat, 0%nat) None
      x_world = (Ok x_new, w1) /\
    call_predict_model (CL := half_half) x_new 128 w1
    = (Ok predictions, after_sampling) /\
    (length [2; 2] <= snd (shape predictions))%nat /\
    Forall (fun q => exists k : nat,
              q = Qnat k /\ (k <= fst (shape predictions))%nat) [2; 2].
Proof.
  assert (Hc : _prediction_counts (RS := counter_source) (CL := half_half)
                 four_samples (0%nat, 0%nat) None 128 x_world
               = (Ok [2; 2], after_sampling))
    by (vm_compute; reflexivity).
  split; [exact Hc|].
  exact (prediction_counts_are_bounded_whole_numbers (RS := counter_source)
           (CL := half_half) four_samples (0%nat, 0%nat) None 128 x_world
           after_sampling [2; 2] Hc).
Defined.

Lemma predict_tests_the_two_largest_counts_witness :
  voted (RS := counter_source) (CL := always0) four_samples 128
    (0%nat, 0%nat) [4; 0] 4 0 /\
  exists top0 c0,
    [4; 0] !! top0 = Some c0 /\ c0 == 4 /\
    (forall j c, [4; 0] !! j = Some c -> c <= 4) /\
    (forall j c, j <> top0 -> [4; 0] !! j = Some c -> c <= 0) /\
    0 <= 4 /\ whole 4 /\ whole 0.
Proof.
  assert (Hv : voted (RS := counter_source) (CL := always0) four_samples 128
                 (0%nat, 0%nat) [4; 0] 4 0).
  { exists x_world, after_sampling, 1%nat.
    split; [vm_compute; reflexivity|]. repeat split; reflexivity. }
  split; [exact Hv|].
  exact (predict_tests_the_two_largest_counts (RS := counter_source)
           (CL := always0) four_samples 128 (0%nat, 0%nat) [4; 0] 4 0 Hv).
Defined.


Lemma predict_needs_two_classes_witness :
  well_behaved one_class 1 /\
  w_heap x_world !! 0%nat = Some x_array /\
  (1%nat = 1%nat ->
   fst (predict (RS := counter_source) (CL := one_class) four_samples 0%nat
          128 false x_world) = Raise IndexError) /\
  (1%nat = 0%nat ->
   fst (predict (RS := counter_source) (CL := one_class) four_samples 0%nat
          128 false x_world) = Raise ValueError).
Proof.
  split; [apply picking_well_behaved|]. split; [reflexivity|].
  apply (predict_needs_two_classes (RS := counter_source) (CL := one_class)
           four_samples 1 0%nat 128 false x_world x_array).
  - apply picking_well_behaved.
  - reflexivity.
  - split; [reflexivity | repeat constructor].
  - simpl. lia.
  - simpl. lia.
  - discriminate.
Defined.

Lemma predict_returns_a_vector_per_input_witness :
  well_behaved half_half 2 /\
  writes_only_batch half_half /\
  w_heap x_world !! 0%nat = Some x_array /\
  exists preds w',
    predict (RS := counter_source) (CL := half_half) four_samples 0%nat 128
      true x_world = (Ok preds, w') /\
    length preds = 1%nat /\
    Forall (fun v => length v = 2%nat /\ (is_one_hot v \/ is_all_zero v))
      preds.
Proof.
  split; [apply picking_well_behaved|].
  split; [apply picking_writes_only_batch|]. split; [reflexivity|].
  apply (predict_returns_a_vector_per_input (RS := counter_source)
           (CL := half_half) four_samples 2 0%nat 128 true x_world x_array).
  - apply picking_well_behaved.
  - apply picking_writes_only_batch.
  - lia.
  - simpl. lia.
  - discriminate.
  - reflexivity.
  - split; [reflexivity | repeat constructor].
Defined.

Lemma certify_returns_a_pair_per_input_witness :
  well_behaved one_class 1 /\
  writes_only_batch one_class /\
  w_heap x_world !! 0%nat = Some x_array /\
  exists preds radii w',
    certify (RS := counter_source) (CL := one_class) (ST := single_trial)
      even_odds 0%nat 1 x_world = (Ok (preds, radii), w') /\
    length preds = 1%nat /\
    length radii = 1%nat /\
    Forall (fun c => c = (-1)%Z \/ (0 <= c < Z.of_nat 1)%Z) preds.
Proof.
  split; [apply picking_well_behaved|].
  split; [apply picking_writes_only_batch|]. split; [reflexivity|].
  apply (certify_returns_a_pair_per_input (RS := counter_source)
           (CL := one_class) (ST := single_trial) even_odds 1 0%nat 1
           x_world x_array).
  - apply picking_well_behaved.
  - apply picking_writes_only_batch.
  - lia.
  - simpl. lia.
  - lia.
  - discriminate.
  - reflexivity.
  - split; [reflexivity | repeat constructor].
Defined.

Lemma predict_unanimous_vote_needs_enough_samples_witness :
  _prediction_counts (RS := counter_source) (CL := always0) four_samples
    (0%nat, 0%nat) None 128 x_world = (Ok [4; 0], after_sampling) /\
  alpha four_samples < 2 * Qpow (1 # 2) 4 /\
  (2 * Qpow (1 # 2) 4 <= alpha four_samples ->
   predict_body (RS := counter_source) (CL := always0) four_samples 128 true
     (0%nat, 0%nat) (0%nat, []) x_world
   = (Ok (0%nat, [] ++ [one_hot (length [4; 0]) (argmax_ix [4; 0])]),
      after_sampling)) /\
  (alpha four_samples < 2 * Qpow (1 # 2) 4 ->
   predict_body (RS := counter_source) (CL := always0) four_samples 128 true
     (0%nat, 0%nat) (0%nat, []) x_world
   = (Ok (1%nat, [] ++ [np_zeros (length [4; 0])]), after_sampling)).
Proof.
  assert (Hc : _prediction_counts (RS := counter_source) (CL := always0)
                 four_samples (0%nat, 0%nat) None 128 x_world
               = (Ok [4; 0], after_sampling))
    by (vm_compute; reflexivity).
  split; [exact Hc|]. split; [reflexivity|].
  apply (predict_unanimous_vote_needs_enough_samples (RS := counter_source)
           (CL := always0) four_samples 128 (0%nat, 0%nat) 0%nat [] x_world
           after_sampling [4; 0] 4 0 1%nat 4%nat Hc).
  - reflexivity.
  - reflexivity.
  - reflexivity.
  - lia.
  - reflexivity.
  - reflexivity.
Defined.

